(** * midbel/mack: the ar codec and the RPM package builder

    A shallow embedding of the two Go packages of the repository:
    package [ar] (reader and writer of Unix ar archives) and package [rpm]
    (tag headers, lead and the package builder).  Go values are modelled
    as follows: [int], [int32], [int64] as [Z] with the conversions that
    truncate written out, [[]byte] and [string] as [list byte], a
    [(value, error)] result as a pair with an [option error], and a call
    that can panic as an [outcome]. *)

From Stdlib Require Import Strings.Byte Strings.String.
From Stdlib Require Import ZArith List Lia Bool.
Import ListNotations.
Open Scope Z_scope.

Set Implicit Arguments.

(** ** Bytes and strings *)

Definition len {A : Type} (l : list A) : Z := Z.of_nat (length l).

Definition b2z (b : byte) : Z := Z.of_N (Byte.to_N b).

Definition z2b (z : Z) : byte :=
  match Byte.of_N (Z.to_N (z mod 256)) with
  | Some b => b
  | None => x00
  end.

(** A Go string literal. *)
Definition str (s : string) : list byte := list_byte_of_string s.

(** ** Results *)

(** The errors that the modelled code can return. *)
Inductive error : Type :=
| EOF                (* io.EOF *)
| ErrUnexpectedEOF   (* io.ErrUnexpectedEOF *)
| ErrMagic           (* ar.ErrMagic *)
| ErrTooShort        (* ar.ErrTooShort *)
| ErrTooLong         (* ar.ErrTooLong *)
| ErrSyntax          (* strconv.ErrSyntax inside a NumError *)
| ErrRange           (* strconv.ErrRange inside a NumError *)
| ErrNotExist        (* os.Open on a missing file *)
| ErrShortWrite      (* io.ErrShortWrite *)
| ErrExternal (code : Z). (* an error raised by a collaborator *)

(** A call either returns or panics (nil dereference, negative count). *)
Inductive outcome (A : Type) : Type :=
| Done (a : A)
| Panic.
Arguments Panic {A}.

Definition obind {A B : Type} (o : outcome A) (k : A -> outcome B) : outcome B :=
  match o with
  | Done a => k a
  | Panic => Panic
  end.

Notation "x <- o ;; k" := (obind o (fun x => k))
  (at level 61, o at next level, right associativity).

(** ** Fixed-width integers *)

(** [uintN]: conversion to an unsigned integer of [w] bits. *)
Definition uwrap (w : Z) (z : Z) : Z := z mod 2 ^ w.

(** [intN]: conversion to a signed integer of [w] bits. *)
Definition swrap (w : Z) (z : Z) : Z :=
  (z + 2 ^ (w - 1)) mod 2 ^ w - 2 ^ (w - 1).

Definition int8 := swrap 8.
Definition int16 := swrap 16.
Definition int32 := swrap 32.
Definition int64 := swrap 64.
Definition uint16 := uwrap 16.
Definition uint32 := uwrap 32.
Definition uint64 := uwrap 64.

(** [binary.Write(w, binary.BigEndian, v)] for an integer of [n] bytes:
    the [n] low bytes of [v], most significant first. *)
Fixpoint be_bytes (n : nat) (v : Z) : list byte :=
  match n with
  | O => []
  | S k => be_bytes k (v / 256) ++ [z2b v]
  end.

(** Reading an unsigned big-endian integer back. *)
Definition be_decode (bs : list byte) : Z :=
  fold_left (fun acc b => acc * 256 + b2z b) bs 0.

Definition le_bytes (n : nat) (v : Z) : list byte := rev (be_bytes n v).

(** ** Basic facts on bytes *)

Lemma b2z_range (b : byte) : 0 <= b2z b < 256.
Proof.
  unfold b2z. pose proof (Byte.to_N_bounded b) as H. lia.
Qed.

Lemma b2z_z2b (z : Z) : b2z (z2b z) = z mod 256.
Proof.
  unfold z2b, b2z.
  assert (Hr : 0 <= z mod 256 < 256) by (apply Z.mod_pos_bound; lia).
  destruct (Byte.of_N (Z.to_N (z mod 256))) as [b|] eqn:E.
  - apply Byte.to_of_N in E. rewrite E. lia.
  - apply Byte.of_N_None_iff in E. lia.
Qed.

Lemma b2z_z2b_small (z : Z) : 0 <= z < 256 -> b2z (z2b z) = z.
Proof.
  intros H. rewrite b2z_z2b. apply Z.mod_small. exact H.
Qed.

Lemma len_app {A : Type} (l1 l2 : list A) : len (l1 ++ l2) = len l1 + len l2.
Proof.
  unfold len. rewrite length_app. lia.
Qed.

Lemma len_nonneg {A : Type} (l : list A) : 0 <= len l.
Proof.
  unfold len. lia.
Qed.

Lemma be_bytes_length (n : nat) (v : Z) : length (be_bytes n v) = n.
Proof.
  revert v. induction n as [|n IH]; intros v; simpl.
  - reflexivity.
  - rewrite length_app, IH. simpl. lia.
Qed.

Lemma be_decode_app (l1 l2 : list byte) :
  be_decode (l1 ++ l2) =
  fold_left (fun acc b => acc * 256 + b2z b) l2 (be_decode l1).
Proof.
  unfold be_decode. apply fold_left_app.
Qed.

Lemma be_decode_be_bytes (n : nat) (v : Z) :
  be_decode (be_bytes n v) = v mod 256 ^ Z.of_nat n.
Proof.
  revert v. induction n as [|n IH]; intros v.
  - simpl. rewrite Z.mod_1_r. reflexivity.
  - cbn [be_bytes]. rewrite be_decode_app, IH. cbn [fold_left].
    rewrite b2z_z2b, Nat2Z.inj_succ, Z.pow_succ_r by lia.
    rewrite Z.rem_mul_r by lia.
    lia.
Qed.

(** ** The Go library functions the code calls

    [strconv], [bytes] and [path] belong to the Go distribution, not to
    the repository; they are modelled after their documented behaviour. *)

Module strconv.

(** The digit [d] in lower case, as [strconv] prints it. *)
Definition digit_char (d : Z) : byte :=
  if d <? 10 then z2b (48 + d) else z2b (97 + (d - 10)).

(** The digits of [n] in [base], least significant first. An unsigned
    64-bit value has at most 64 digits in any base. *)
Fixpoint digits_le (fuel : nat) (base n : Z) : list Z :=
  match fuel with
  | O => []
  | S f =>
      if n <? base then [n]
      else (n mod base) :: digits_le f base (n / base)
  end.

Definition FormatUint (n base : Z) : list byte :=
  map digit_char (rev (digits_le 64 base n)).

(** [strconv.FormatInt(i, base)]. *)
Definition FormatInt (i base : Z) : list byte :=
  if i <? 0 then x2d :: FormatUint (- i) base else FormatUint i base.

(** [lower(c)] is [c | ('x' - 'X')]. *)
Definition lower (c : Z) : Z := Z.lor c 32.

Definition digit_val (c : Z) : option Z :=
  if (48 <=? c) && (c <=? 57) then Some (c - 48)
  else if (97 <=? lower c) && (lower c <=? 122) then Some (lower c - 97 + 10)
  else None.

(** The digit loop of [ParseUint]: [n] is the value read so far, [us]
    whether an underscore was seen. The result is the pair that
    [ParseUint] would return, with the underscore flag. *)
Fixpoint parse_loop (base0 : bool) (base cutoff maxVal : Z)
         (s : list byte) (n : Z) (us : bool) : Z * option error * bool :=
  match s with
  | [] => (n, None, us)
  | c :: t =>
      let c := b2z c in
      if (c =? 95) && base0 then
        parse_loop base0 base cutoff maxVal t n true
      else
        match digit_val c with
        | None => (0, Some ErrSyntax, us)
        | Some d =>
            if base <=? d then (0, Some ErrSyntax, us)
            else if cutoff <=? n then (maxVal, Some ErrRange, us)
            else
              let n0 := n * base in
              let n1 := uint64 (n0 + d) in
              if (n1 <? n0) || (maxVal <? n1) then (maxVal, Some ErrRange, us)
              else parse_loop base0 base cutoff maxVal t n1 us
        end
  end.

(** [underscoreOK]: underscores only between digits or after a base
    prefix. [saw] is 0 at the beginning, 1 after a digit, 2 after an
    underscore and 3 after anything else. *)
Fixpoint underscore_scan (hex : bool) (s : list byte) (saw : Z) : bool :=
  match s with
  | [] => negb (saw =? 2)
  | b :: t =>
      let c := b2z b in
      if ((48 <=? c) && (c <=? 57))
         || (hex && (97 <=? lower c) && (lower c <=? 102))
      then underscore_scan hex t 1
      else if c =? 95 then
        if saw =? 1 then underscore_scan hex t 2 else false
      else if saw =? 2 then false
      else underscore_scan hex t 3
  end.

Definition underscoreOK (s : list byte) : bool :=
  let s :=
    match s with
    | c :: t => if (b2z c =? 45) || (b2z c =? 43) then t else s
    | [] => s
    end in
  match s with
  | c0 :: c1 :: t =>
      if (b2z c0 =? 48)
         && ((lower (b2z c1) =? 98) || (lower (b2z c1) =? 111)
             || (lower (b2z c1) =? 120))
      then underscore_scan (lower (b2z c1) =? 120) t 1
      else underscore_scan false s 0
  | _ => underscore_scan false s 0
  end.

(** The base and the digits that [ParseUint] settles on for base 0. *)
Definition base_prefix (s : list byte) : Z * list byte :=
  match s with
  | c0 :: t =>
      if b2z c0 =? 48 then
        match t with
        | c1 :: _ :: _ =>
            if lower (b2z c1) =? 98 then (2, skipn 2 s)
            else if lower (b2z c1) =? 111 then (8, skipn 2 s)
            else if lower (b2z c1) =? 120 then (16, skipn 2 s)
            else (8, t)
        | _ => (8, t)
        end
      else (10, s)
  | [] => (10, s)
  end.

(** [strconv.ParseUint(s, base, bitSize)] for a base that is 0 or in
    2..36 and a bit size in 1..64, which is how the code calls it. *)
Definition ParseUint (s : list byte) (base bitSize : Z) : Z * option error :=
  match s with
  | [] => (0, Some ErrSyntax)
  | _ :: _ =>
      let base0 := base =? 0 in
      let '(b, digits) := if base0 then base_prefix s else (base, s) in
      let cutoff := (2 ^ 64 - 1) / b + 1 in
      let maxVal := 2 ^ bitSize - 1 in
      let '(n, e, us) := parse_loop base0 b cutoff maxVal digits 0 false in
      match e with
      | Some _ => (n, e)
      | None =>
          if us && negb (underscoreOK s) then (0, Some ErrSyntax)
          else (n, None)
      end
  end.

(** [strconv.ParseInt(s, base, bitSize)]. *)
Definition ParseInt (s : list byte) (base bitSize : Z) : Z * option error :=
  match s with
  | [] => (0, Some ErrSyntax)
  | c0 :: t =>
      let '(neg, s1) :=
        if b2z c0 =? 43 then (false, t)
        else if b2z c0 =? 45 then (true, t)
        else (false, s) in
      let '(un, e) := ParseUint s1 base bitSize in
      match e with
      | Some ErrRange | None =>
          let cutoff := 2 ^ (bitSize - 1) in
          if negb neg && (cutoff <=? un) then (cutoff - 1, Some ErrRange)
          else if neg && (cutoff <? un) then (- cutoff, Some ErrRange)
          else (if neg then - un else un, None)
      | Some err => (0, Some err)
      end
  end.

End strconv.

Module bytes.

Section TrimSpace.

(** [bytes.TrimFunc(s, unicode.IsSpace)], which [TrimSpace] falls back
    on when it meets a byte outside ASCII. *)
Variable TrimFunc_IsSpace : list byte -> list byte.

(** The table [asciiSpace]: tab, line feed, vertical tab, form feed,
    carriage return and space. *)
Definition asciiSpace (c : byte) : bool :=
  let c := b2z c in
  (c =? 9) || (c =? 10) || (c =? 11) || (c =? 12) || (c =? 13) || (c =? 32).

Definition RuneSelf : Z := 128.

(** The first loop of [TrimSpace]: [inl] is [s[start:]], [inr] is the
    argument of the fallback. *)
Fixpoint trim_start (s : list byte) : list byte + list byte :=
  match s with
  | [] => inl []
  | c :: t =>
      if RuneSelf <=? b2z c then inr s
      else if asciiSpace c then trim_start t
      else inl s
  end.

(** The second loop, on the reversed slice. *)
Fixpoint trim_stop (r : list byte) : list byte + list byte :=
  match r with
  | [] => inl []
  | c :: t =>
      if RuneSelf <=? b2z c then inr r
      else if asciiSpace c then trim_stop t
      else inl r
  end.

(** [bytes.TrimSpace(s)]. *)
Definition TrimSpace (s : list byte) : list byte :=
  match trim_start s with
  | inr rest => TrimFunc_IsSpace rest
  | inl rest =>
      match trim_stop (rev rest) with
      | inr r => TrimFunc_IsSpace (rev r)
      | inl r => rev r
      end
  end.

End TrimSpace.

End bytes.

Module path.

Definition is_slash (c : byte) : bool := b2z c =? 47.

Fixpoint drop_slashes (r : list byte) : list byte :=
  match r with
  | c :: t => if is_slash c then drop_slashes t else r
  | [] => []
  end.

Fixpoint until_slash (r : list byte) : list byte :=
  match r with
  | c :: t => if is_slash c then [] else c :: until_slash t
  | [] => []
  end.

(** [path.Base(p)]: the last element of [p], trailing slashes removed;
    ["."] for the empty path and ["/"] for a path of slashes only. The
    two loops run on the reversed path. *)
Definition Base (p : list byte) : list byte :=
  match p with
  | [] => str "."
  | _ =>
      match rev (until_slash (drop_slashes (rev p))) with
      | [] => str "/"
      | e => e
      end
  end.

End path.

Example ParseInt_octal_text :
  strconv.ParseInt (strconv.FormatInt 420 8) 0 64 = (644, None).
Proof. vm_compute. reflexivity. Qed.

Example ParseInt_samples :
  strconv.ParseInt (str "0x1F") 0 64 = (31, None) /\
  strconv.ParseInt (str "017") 0 64 = (15, None) /\
  strconv.ParseInt (str "-12") 0 64 = (-12, None) /\
  strconv.ParseInt (str "1_000") 0 64 = (1000, None) /\
  strconv.ParseInt (str "_1") 0 64 = (0, Some ErrSyntax) /\
  strconv.ParseInt (str "abc") 0 64 = (0, Some ErrSyntax) /\
  strconv.ParseInt (str "9223372036854775808") 0 64 =
    (9223372036854775807, Some ErrRange) /\
  strconv.ParseInt (str "0") 0 64 = (0, None).
Proof. vm_compute. repeat split. Qed.

Example Base_samples :
  path.Base (str "usr/lib/libc.a") = str "libc.a" /\
  path.Base (str "dir/") = str "dir" /\
  path.Base (str "///") = str "/" /\
  path.Base (str "") = str ".".
Proof. vm_compute. repeat split. Qed.

(** ** Package ar *)

Module ar.

Definition magic : list byte := str "!<arch>".
Definition linefeed : list byte := [x60; x0a].

(** [bytes.Equal]. *)
Fixpoint Equal (a b : list byte) : bool :=
  match a, b with
  | [], [] => true
  | x :: a', y :: b' => Byte.eqb x y && Equal a' b'
  | _, _ => false
  end.

(** A [time.Time]: the seconds since the epoch and the nanoseconds within
    the second. *)
Record Time : Type := { sec : Z; nsec : Z }.

Definition Unix (t : Time) : Z := sec t.
Definition time_Unix (s n : Z) : Time := {| sec := s; nsec := n |}.

Record Header : Type := {
  Name : list byte;
  Uid : Z;
  Gid : Z;
  Mode : Z;
  Length : Z;
  ModTime : Time
}.

(** The zero value of [Header] ([var h Header]). *)
Definition zero_Header : Header :=
  {| Name := []; Uid := 0; Gid := 0; Mode := 0; Length := 0;
     ModTime := time_Unix 0 0 |}.

(** *** Writer

    The sink [w.inner] is the list of bytes written so far; it accepts
    every write, as a [bytes.Buffer] does. *)
Record Writer : Type := {
  w_inner : list byte;
  w_hdr : Header;
  w_err : option error
}.

Definition NewWriter (sink : list byte) : Writer * option error :=
  ({| w_inner := sink ++ magic ++ [x0a]; w_hdr := zero_Header; w_err := None |},
   None).

(** [writeHeaderField(w, s, n)]: [strings.Repeat] panics on a negative
    count, that is when [s] is longer than [n]. *)
Definition writeHeaderField (buf s : list byte) (n : Z) : outcome (list byte) :=
  if n - len s <? 0 then Panic
  else Done (buf ++ s ++ repeat x20 (Z.to_nat (n - len s))).

(** The buffer that [WriteHeader] fills before copying it to the sink. *)
Definition encodeHeader (h : Header) : outcome (list byte) :=
  b <- writeHeaderField [] (path.Base (Name h) ++ str "/") 16 ;;
  b <- writeHeaderField b (strconv.FormatInt (Unix (ModTime h)) 10) 12 ;;
  b <- writeHeaderField b (strconv.FormatInt (Uid h) 10) 6 ;;
  b <- writeHeaderField b (strconv.FormatInt (Gid h) 10) 6 ;;
  b <- writeHeaderField b (strconv.FormatInt (Mode h) 8) 8 ;;
  b <- writeHeaderField b (strconv.FormatInt (Length h) 10) 10 ;;
  Done (b ++ linefeed).

Definition WriteHeader (w : Writer) (h : Header) : outcome (option error * Writer) :=
  match w_err w with
  | Some e => Done (Some e, w)
  | None =>
      buf <- encodeHeader h ;;
      Done (None, {| w_inner := w_inner w ++ buf; w_hdr := h; w_err := w_err w |})
  end.

(** [Writer.Write]: the count returned leaves the pad byte out. *)
Definition Write (w : Writer) (bs : list byte) : Z * option error * Writer :=
  let vs := if len bs mod 2 =? 1 then bs ++ [x0a] else bs in
  (len bs, None,
   {| w_inner := w_inner w ++ vs; w_hdr := w_hdr w; w_err := w_err w |}).

Definition Close (w : Writer) : option error := None.

(** *** Reader

    [r.inner] is the [bufio.Reader] over the source, modelled as the bytes
    not yet consumed: the source delivers them without error, and a read
    is short only at the end of the source. *)
Record Reader : Type := {
  r_inner : list byte;
  r_hdr : option Header;
  r_err : option error
}.

(** [io.ReadFull(r, buf)] with [len(buf) = n]: the bytes read, the error
    and the rest of the source. *)
Definition ReadFull (src : list byte) (n : Z) : list byte * option error * list byte :=
  let got := firstn (Z.to_nat n) src in
  let rest := skipn (Z.to_nat n) src in
  if len got =? Z.max 0 n then (got, None, rest)
  else match got with
       | [] => ([], Some EOF, rest)
       | _ => (got, Some ErrUnexpectedEOF, rest)
       end.

Definition NewReader (src : list byte) : option Reader * option error :=
  if len src <? len magic then (None, Some EOF)
  else if negb (Equal (firstn (length magic) src) magic) then (None, Some ErrMagic)
  else if len src <? len magic + 1 then (None, Some EOF)
  else (Some {| r_inner := skipn (length magic + 1) src;
                r_hdr := None; r_err := None |}, None).

Section Decode.

(** [bytes.TrimFunc(s, unicode.IsSpace)], see [bytes.TrimSpace]. *)
Variable TrimFunc_IsSpace : list byte -> list byte.

Definition readHeaderField (src : list byte) (n : Z)
  : list byte * option error * list byte :=
  let '(bs, e, rest) := ReadFull src n in
  match e with
  | Some err => ([], Some err, rest)
  | None => (bytes.TrimSpace TrimFunc_IsSpace bs, None, rest)
  end.

Definition set_Name (h : Header) (v : list byte) : Header :=
  {| Name := v; Uid := Uid h; Gid := Gid h; Mode := Mode h;
     Length := Length h; ModTime := ModTime h |}.
Definition set_ModTime (h : Header) (v : Time) : Header :=
  {| Name := Name h; Uid := Uid h; Gid := Gid h; Mode := Mode h;
     Length := Length h; ModTime := v |}.
Definition set_Uid (h : Header) (v : Z) : Header :=
  {| Name := Name h; Uid := v; Gid := Gid h; Mode := Mode h;
     Length := Length h; ModTime := ModTime h |}.
Definition set_Gid (h : Header) (v : Z) : Header :=
  {| Name := Name h; Uid := Uid h; Gid := v; Mode := Mode h;
     Length := Length h; ModTime := ModTime h |}.
Definition set_Mode (h : Header) (v : Z) : Header :=
  {| Name := Name h; Uid := Uid h; Gid := Gid h; Mode := v;
     Length := Length h; ModTime := ModTime h |}.
Definition set_Length (h : Header) (v : Z) : Header :=
  {| Name := Name h; Uid := Uid h; Gid := Gid h; Mode := Mode h;
     Length := v; ModTime := ModTime h |}.

(** The three field readers return the header as updated, the error and
    the rest of the source. *)
Definition readFilename (src : list byte) (h : Header)
  : Header * option error * list byte :=
  let '(bs, e, rest) := readHeaderField src 16 in
  match e with
  | Some err => (h, Some err, rest)
  | None => (set_Name h bs, None, rest)
  end.

(** One numeric field: [readHeaderField] then [strconv.ParseInt(s, 0, 64)]. *)
Definition readInt (src : list byte) (n : Z) : Z * option error * list byte :=
  let '(bs, e, rest) := readHeaderField src n in
  match e with
  | Some err => (0, Some err, rest)
  | None =>
      let '(i, e) := strconv.ParseInt bs 0 64 in
      (i, e, rest)
  end.

Definition readModTime (src : list byte) (h : Header)
  : Header * option error * list byte :=
  let '(i, e, rest) := readInt src 12 in
  match e with
  | Some err => (h, Some err, rest)
  | None => (set_ModTime h (time_Unix i 0), None, rest)
  end.

Definition readFileInfos (src : list byte) (h : Header)
  : Header * option error * list byte :=
  let '(i, e, rest) := readInt src 6 in
  match e with
  | Some err => (h, Some err, rest)
  | None =>
  let h := set_Uid h i in
  let '(i, e, rest) := readInt rest 6 in
  match e with
  | Some err => (h, Some err, rest)
  | None =>
  let h := set_Gid h i in
  let '(i, e, rest) := readInt rest 8 in
  match e with
  | Some err => (h, Some err, rest)
  | None =>
  let h := set_Mode h i in
  let '(i, e, rest) := readInt rest 10 in
  match e with
  | Some err => (h, Some err, rest)
  | None => (set_Length h i, None, rest)
  end end end end.

Definition failed (r : Reader) (rest : list byte) (e : error) : Reader :=
  {| r_inner := rest; r_hdr := r_hdr r; r_err := Some e |}.

(** [Reader.Next]: the header and the error returned, and the reader as
    the call leaves it. *)
Definition Next (r : Reader) : option Header * option error * Reader :=
  match r_err r with
  | Some e => (None, Some e, r)
  | None =>
  if len (r_inner r) <? 16 then (None, Some EOF, r)
  else
  let '(h, e, rest) := readFilename (r_inner r) zero_Header in
  match e with
  | Some err => (None, Some err, failed r rest err)
  | None =>
  let '(h, e, rest) := readModTime rest h in
  match e with
  | Some err => (None, Some err, failed r rest err)
  | None =>
  let '(h, e, rest) := readFileInfos rest h in
  match e with
  | Some err => (None, Some err, failed r rest err)
  | None =>
  (* bs := make([]byte, 2); r.inner.Read(bs) *)
  match rest with
  | [] => (None, Some EOF, {| r_inner := []; r_hdr := r_hdr r; r_err := None |})
  | _ =>
      let got := firstn 2 rest in
      let bs := got ++ repeat x00 (2 - length got) in
      let r' := {| r_inner := skipn 2 rest; r_hdr := r_hdr r; r_err := None |} in
      if negb (Equal bs linefeed) then (None, None, r')
      else (Some h, None,
            {| r_inner := skipn 2 rest; r_hdr := Some h; r_err := None |})
  end end end end end.

(** [Reader.Read(bs)]: the buffer as the call leaves it, the count, the
    error and the reader. It panics when [r.hdr] is nil or the length it
    allocates is negative. *)
Definition Read (r : Reader) (bs : list byte)
  : outcome (list byte * Z * option error * Reader) :=
  match r_err r with
  | Some e => Done (bs, 0, Some e, r)
  | None =>
      match r_hdr r with
      | None => Panic
      | Some h =>
          if Length h <? 0 then Panic
          else
            let '(vs, e, rest) := ReadFull (r_inner r) (Length h) in
            let rest := if Length h mod 2 =? 1 then skipn 1 rest else rest in
            let k := Nat.min (length bs) (length vs) in
            Done (firstn k vs ++ skipn k bs, Z.of_nat k, e,
                  {| r_inner := rest; r_hdr := r_hdr r; r_err := e |})
      end
  end.

(** [io.CopyN(ioutil.Discard, r, n)]: [Discard] reads the limited reader
    into a buffer of 8192 bytes until it reports an error; the loop stops
    after at most one read per byte of the source. [None] stands for a
    loop cut short by the fuel. *)
Fixpoint discard_loop (fuel : nat) (r : Reader) (N written : Z)
  : option (outcome (Z * option error * Reader)) :=
  match fuel with
  | O => None
  | S f =>
      if N <=? 0 then Some (Done (written, None, r))
      else
        match Read r (repeat x00 (Z.to_nat (Z.min 8192 N))) with
        | Panic => Some Panic
        | Done (_, k, e, r') =>
            match e with
            | Some EOF => Some (Done (written + k, None, r'))
            | Some err => Some (Done (written + k, Some err, r'))
            | None => discard_loop f r' (N - k) (written + k)
            end
        end
  end.

Definition CopyN_Discard (r : Reader) (n : Z)
  : option (outcome (Z * option error * Reader)) :=
  match discard_loop (S (S (length (r_inner r)))) r n 0 with
  | None => None
  | Some Panic => Some Panic
  | Some (Done (written, e, r')) =>
      if written =? n then Some (Done (n, None, r'))
      else match e with
           | None => if written <? n then Some (Done (written, Some EOF, r'))
                     else Some (Done (written, None, r'))
           | Some _ => Some (Done (written, e, r'))
           end
  end.

(** [os.Open] and the bytes of the file opened, by path. *)
Variable fsys : list byte -> option (list byte).

(** The loop of [List]. [h.Length] on the nil header that [Next] returns
    with an error other than [io.EOF] panics. *)
Fixpoint list_loop (fuel : nat) (r : Reader) (hs : list Header)
  : option (outcome (option (list Header) * option error)) :=
  match fuel with
  | O => None
  | S f =>
      let '(h, e, r1) := Next r in
      match e with
      | Some EOF => Some (Done (Some hs, None))
      | _ =>
          match h with
          | None => Some Panic
          | Some hd =>
              match CopyN_Discard r1 (Length hd) with
              | None => None
              | Some Panic => Some Panic
              | Some (Done (_, Some err, _)) => Some (Done (None, Some err))
              | Some (Done (_, None, r2)) => list_loop f r2 (hs ++ [hd])
              end
          end
      end
  end.

Definition List (file : list byte)
  : option (outcome (option (list Header) * option error)) :=
  match fsys file with
  | None => Some (Done (None, Some ErrNotExist))
  | Some content =>
      match NewReader content with
      | (Some r, _) => list_loop (S (length content)) r []
      | (None, e) => Some (Done (None, e))
      end
  end.

End Decode.

End ar.

(** ** Facts on the library functions *)

(** The value of a list of digits, most significant first, started from
    [acc]; and least significant first. *)
Definition be_val (base acc : Z) (ds : list Z) : Z :=
  fold_left (fun a d => a * base + d) ds acc.

Definition le_val (base : Z) (ds : list Z) : Z :=
  fold_right (fun d a => a * base + d) 0 ds.

Definition is_digit (base d : Z) : Prop := 0 <= d < base.

Lemma be_val_cons (b acc d : Z) (ds : list Z) :
  be_val b acc (d :: ds) = be_val b (acc * b + d) ds.
Proof. reflexivity. Qed.

Lemma be_val_rev (base : Z) (ds : list Z) :
  be_val base 0 (rev ds) = le_val base ds.
Proof.
  unfold be_val, le_val.
  rewrite <- (fold_left_rev_right (fun d a => a * base + d)).
  rewrite rev_involutive. reflexivity.
Qed.

Lemma digits_le_spec (fuel : nat) (b : Z) :
  2 <= b -> forall n, 0 <= n < b ^ Z.of_nat fuel ->
  le_val b (strconv.digits_le fuel b n) = n /\
  Forall (is_digit b) (strconv.digits_le fuel b n).
Proof.
  intros Hb. induction fuel as [|f IH]; intros n Hn.
  - simpl in *. split; [lia | constructor].
  - cbn [strconv.digits_le]. destruct (n <? b) eqn:E.
    + apply Z.ltb_lt in E. split.
      * simpl. lia.
      * constructor; [unfold is_digit; lia | constructor].
    + apply Z.ltb_ge in E.
      assert (Hq : 0 <= n / b < b ^ Z.of_nat f).
      { split; [apply Z.div_pos; lia|].
        apply Z.div_lt_upper_bound; [lia|].
        rewrite Nat2Z.inj_succ, Z.pow_succ_r in Hn by lia. lia. }
      destruct (IH _ Hq) as [Hv Hd]. split.
      * cbn [le_val fold_right]. fold (le_val b (strconv.digits_le f b (n / b))).
        rewrite Hv. pose proof (Z.div_mod n b). lia.
      * constructor; [|exact Hd].
        unfold is_digit. apply Z.mod_pos_bound. lia.
Qed.

Lemma digits_le_length (b : Z) :
  2 <= b -> forall (k fuel : nat) (n : Z),
  0 <= n < b ^ Z.of_nat k -> (1 <= k)%nat -> (k <= fuel)%nat ->
  (length (strconv.digits_le fuel b n) <= k)%nat.
Proof.
  intros Hb. induction k as [|k IH]; intros fuel n Hn Hk Hf; [lia|].
  destruct fuel as [|f]; [lia|].
  cbn [strconv.digits_le]. destruct (n <? b) eqn:E.
  - simpl. lia.
  - apply Z.ltb_ge in E. cbn [length].
    rewrite Nat2Z.inj_succ, Z.pow_succ_r in Hn by lia.
    destruct k as [|k'].
    + simpl in Hn. lia.
    + apply le_n_S. apply IH; [|lia|lia]. split.
      * apply Z.div_pos; lia.
      * apply Z.div_lt_upper_bound; lia.
Qed.

Lemma digits_le_lead (b : Z) :
  2 <= b -> forall (fuel : nat) (n : Z),
  0 < n < b ^ Z.of_nat fuel ->
  exists d ds, rev (strconv.digits_le fuel b n) = d :: ds /\ 0 < d < b.
Proof.
  intros Hb. induction fuel as [|f IH]; intros n Hn.
  - simpl in Hn. lia.
  - cbn [strconv.digits_le]. destruct (n <? b) eqn:E.
    + apply Z.ltb_lt in E. exists n, []. split; [reflexivity | lia].
    + apply Z.ltb_ge in E.
      rewrite Nat2Z.inj_succ, Z.pow_succ_r in Hn by lia.
      destruct (IH (n / b)) as (d & ds & Hr & Hd).
      { split.
        - apply Z.div_str_pos. lia.
        - apply Z.div_lt_upper_bound; lia. }
      exists d, (ds ++ [n mod b]). split; [|exact Hd].
      cbn [rev]. rewrite Hr. reflexivity.
Qed.

Lemma be_val_ge (b : Z) (ds : list Z) :
  1 <= b -> Forall (is_digit b) ds -> forall acc, 0 <= acc ->
  acc <= be_val b acc ds.
Proof.
  intros Hb Hd. induction Hd as [|d ds Hd _ IH]; intros acc Ha.
  - simpl. lia.
  - rewrite be_val_cons. unfold is_digit in Hd.
    specialize (IH (acc * b + d)). nia.
Qed.

Lemma be_val_lt (b : Z) (ds : list Z) :
  1 <= b -> Forall (is_digit b) ds -> forall acc, 0 <= acc ->
  be_val b acc ds < (acc + 1) * b ^ Z.of_nat (length ds).
Proof.
  intros Hb Hd. induction Hd as [|d ds Hd _ IH]; intros acc Ha.
  - simpl. lia.
  - rewrite be_val_cons. cbn [length]. unfold is_digit in Hd.
    rewrite Nat2Z.inj_succ, Z.pow_succ_r by lia.
    specialize (IH (acc * b + d)).
    assert (0 < b ^ Z.of_nat (length ds)) by (apply Z.pow_pos_nonneg; lia).
    nia.
Qed.

Lemma digit_char_dec (d : Z) :
  0 <= d < 10 -> b2z (strconv.digit_char d) = 48 + d.
Proof.
  intros H. unfold strconv.digit_char.
  destruct (d <? 10) eqn:E; [|apply Z.ltb_ge in E; lia].
  apply b2z_z2b_small. lia.
Qed.

Lemma digit_val_dec (d : Z) :
  0 <= d < 10 -> strconv.digit_val (48 + d) = Some d.
Proof.
  intros H. unfold strconv.digit_val.
  replace (48 <=? 48 + d) with true by (symmetry; apply Z.leb_le; lia).
  replace (48 + d <=? 57) with true by (symmetry; apply Z.leb_le; lia).
  cbn [andb]. f_equal. lia.
Qed.

Definition two64 : Z := 18446744073709551616.
Definition two63 : Z := 9223372036854775808.

Lemma two64_eq : 2 ^ 64 = two64.
Proof. reflexivity. Qed.

Lemma two63_eq : 2 ^ 63 = two63.
Proof. reflexivity. Qed.

(** The digit loop reads a string of decimal digits whose value is below
    2^63 without an error, whatever the base prefix settled. *)
Lemma parse_loop_dec (b0 : bool) (ds : list Z) :
  Forall (is_digit 10) ds -> forall acc, 0 <= acc ->
  be_val 10 acc ds < two63 ->
  strconv.parse_loop b0 10 ((2 ^ 64 - 1) / 10 + 1) (2 ^ 64 - 1)
    (map strconv.digit_char ds) acc false = (be_val 10 acc ds, None, false).
Proof.
  intros Hd. induction Hd as [|d ds Hd Hds IH]; intros acc Ha Hv.
  - reflexivity.
  - rewrite be_val_cons in *. cbn [map strconv.parse_loop].
    unfold is_digit in Hd.
    rewrite digit_char_dec by exact Hd.
    replace (48 + d =? 95) with false by (symmetry; apply Z.eqb_neq; lia).
    cbn [andb]. rewrite digit_val_dec by exact Hd.
    assert (Hge : acc * 10 + d <= be_val 10 (acc * 10 + d) ds)
      by (apply be_val_ge; [lia | exact Hds | lia]).
    replace (10 <=? d) with false by (symmetry; apply Z.leb_gt; lia).
    rewrite two64_eq. unfold two64, two63 in *.
    change ((18446744073709551616 - 1) / 10 + 1) with 1844674407370955162.
    replace (1844674407370955162 <=? acc) with false
      by (symmetry; apply Z.leb_gt; lia).
    unfold uint64, uwrap. rewrite two64_eq. unfold two64.
    rewrite (Z.mod_small (acc * 10 + d)) by lia.
    replace (acc * 10 + d <? acc * 10) with false
      by (symmetry; apply Z.ltb_ge; lia).
    replace (18446744073709551616 - 1 <? acc * 10 + d) with false
      by (symmetry; apply Z.ltb_ge; lia).
    cbn [orb]. apply IH; lia.
Qed.

Lemma pow_64_ge (b : Z) : 2 <= b -> two63 < b ^ Z.of_nat 64.
Proof.
  intros Hb.
  assert (H : 2 ^ Z.of_nat 64 <= b ^ Z.of_nat 64)
    by (apply Z.pow_le_mono_l; lia).
  change (2 ^ Z.of_nat 64) with two64 in H. unfold two64, two63 in *. lia.
Qed.

(** What [FormatUint] prints: digits of the base with no leading zero
    (the single digit 0 for 0), whose value is the number printed. *)
Lemma FormatUint_shape (b n : Z) :
  2 <= b <= 10 -> 0 <= n < two63 ->
  exists d ds,
    strconv.FormatUint n b = map strconv.digit_char (d :: ds) /\
    Forall (is_digit b) (d :: ds) /\
    (d = 0 -> ds = []) /\
    be_val b 0 (d :: ds) = n.
Proof.
  intros Hb Hn. unfold strconv.FormatUint.
  pose proof (pow_64_ge (b := b) ltac:(lia)) as Hp.
  destruct (digits_le_spec 64 (b := b) ltac:(lia) (n := n) ltac:(lia))
    as [Hv Hd].
  destruct (Z.eq_dec n 0) as [-> | Hnz].
  - exists 0, []. cbn [strconv.digits_le].
    replace (0 <? b) with true by (symmetry; apply Z.ltb_lt; lia).
    repeat split; auto.
    constructor; [unfold is_digit; lia | constructor].
  - destruct (digits_le_lead (b := b) ltac:(lia) 64 (n := n) ltac:(lia))
      as (d & ds & Hr & Hdpos).
    exists d, ds. rewrite Hr. repeat split.
    + rewrite <- Hr. apply Forall_rev. exact Hd.
    + lia.
    + rewrite <- Hr, be_val_rev. exact Hv.
Qed.

Lemma FormatUint_length (b n : Z) (k : nat) :
  2 <= b -> 0 <= n < b ^ Z.of_nat k -> (1 <= k <= 64)%nat ->
  len (strconv.FormatUint n b) <= Z.of_nat k.
Proof.
  intros Hb Hn Hk. unfold strconv.FormatUint, len.
  rewrite length_map, length_rev.
  apply inj_le. apply digits_le_length; lia.
Qed.

Lemma is_digit_weaken (b d : Z) : b <= 10 -> is_digit b d -> is_digit 10 d.
Proof.
  unfold is_digit. lia.
Qed.

Lemma ParseUint_digits (d : Z) (ds : list Z) :
  Forall (is_digit 10) (d :: ds) -> (d = 0 -> ds = []) ->
  be_val 10 0 (d :: ds) < two63 ->
  strconv.ParseUint (map strconv.digit_char (d :: ds)) 0 64 =
  (be_val 10 0 (d :: ds), None).
Proof.
  intros Hd Hz Hv.
  assert (Hd0 : 0 <= d < 10) by (inversion Hd; assumption).
  destruct (Z.eq_dec d 0) as [-> | Hnz].
  - rewrite (Hz eq_refl). reflexivity.
  - unfold strconv.ParseUint.
    pose proof (parse_loop_dec true Hd (acc := 0) ltac:(lia) Hv) as Hl.
    cbn [map] in *. change (0 =? 0) with true. cbv iota.
    unfold strconv.base_prefix.
    rewrite digit_char_dec by exact Hd0.
    replace (48 + d =? 48) with false by (symmetry; apply Z.eqb_neq; lia).
    rewrite Hl. reflexivity.
Qed.

Lemma ParseInt_digits (d : Z) (ds : list Z) :
  Forall (is_digit 10) (d :: ds) -> (d = 0 -> ds = []) ->
  be_val 10 0 (d :: ds) < two63 ->
  strconv.ParseInt (map strconv.digit_char (d :: ds)) 0 64 =
  (be_val 10 0 (d :: ds), None).
Proof.
  intros Hd Hz Hv.
  assert (Hd0 : 0 <= d < 10) by (inversion Hd; assumption).
  pose proof (ParseUint_digits Hd Hz Hv) as Hu.
  pose proof (be_val_ge (b := 10) ltac:(lia) Hd (acc := 0) ltac:(lia)) as Hge.
  unfold strconv.ParseInt. cbn [map] in *.
  rewrite digit_char_dec by exact Hd0.
  replace (48 + d =? 43) with false by (symmetry; apply Z.eqb_neq; lia).
  replace (48 + d =? 45) with false by (symmetry; apply Z.eqb_neq; lia).
  rewrite Hu. change (2 ^ (64 - 1)) with two63. cbn [negb andb].
  replace (two63 <=? be_val 10 0 (d :: ds)) with false
    by (symmetry; apply Z.leb_gt; lia).
  reflexivity.
Qed.

Lemma ParseInt_neg_digits (d : Z) (ds : list Z) :
  Forall (is_digit 10) (d :: ds) -> (d = 0 -> ds = []) ->
  be_val 10 0 (d :: ds) < two63 ->
  strconv.ParseInt (x2d :: map strconv.digit_char (d :: ds)) 0 64 =
  (- be_val 10 0 (d :: ds), None).
Proof.
  intros Hd Hz Hv.
  pose proof (ParseUint_digits Hd Hz Hv) as Hu.
  unfold strconv.ParseInt.
  change (b2z x2d) with 45. change (45 =? 43) with false.
  change (45 =? 45) with true. cbv iota.
  rewrite Hu. change (2 ^ (64 - 1)) with two63. cbn [negb andb].
  replace (two63 <? be_val 10 0 (d :: ds)) with false
    by (symmetry; apply Z.ltb_ge; lia).
  reflexivity.
Qed.

(** Printing in base 10 and parsing with base 0 gives the number back. *)
Lemma ParseInt_FormatInt (n : Z) :
  - two63 < n < two63 ->
  strconv.ParseInt (strconv.FormatInt n 10) 0 64 = (n, None).
Proof.
  intros Hn. unfold strconv.FormatInt.
  destruct (n <? 0) eqn:E.
  - apply Z.ltb_lt in E.
    destruct (FormatUint_shape (b := 10) (n := - n) ltac:(lia) ltac:(lia))
      as (d & ds & Hs & Hd & Hz & Hv).
    rewrite Hs, ParseInt_neg_digits by (try assumption; lia).
    rewrite Hv. f_equal. lia.
  - apply Z.ltb_ge in E.
    destruct (FormatUint_shape (b := 10) (n := n) ltac:(lia) ltac:(lia))
      as (d & ds & Hs & Hd & Hz & Hv).
    rewrite Hs, ParseInt_digits by (try assumption; lia).
    rewrite Hv. reflexivity.
Qed.

(** Printing in base 8 and parsing with base 0 succeeds, with the octal
    digits read in base 10. *)
Lemma ParseInt_FormatInt_octal (n : Z) :
  0 <= n < 8 ^ 8 ->
  exists v, strconv.ParseInt (strconv.FormatInt n 8) 0 64 = (v, None).
Proof.
  intros Hn. unfold strconv.FormatInt.
  replace (n <? 0) with false by (symmetry; apply Z.ltb_ge; lia).
  assert (H63 : n < two63) by (unfold two63; change (8 ^ 8) with 16777216 in Hn; lia).
  destruct (FormatUint_shape (b := 8) (n := n) ltac:(lia) ltac:(lia))
    as (d & ds & Hs & Hd & Hz & Hv).
  pose proof (FormatUint_length (b := 8) (n := n) (k := 8) ltac:(lia) Hn ltac:(lia))
    as Hl.
  rewrite Hs in Hl. unfold len in Hl. rewrite length_map in Hl.
  assert (Hd10 : Forall (is_digit 10) (d :: ds)).
  { eapply Forall_impl; [|exact Hd]. intros a. apply is_digit_weaken. lia. }
  pose proof (be_val_lt (b := 10) ltac:(lia) Hd10 (acc := 0) ltac:(lia)) as Hb.
  assert (Hp : 10 ^ Z.of_nat (length (d :: ds)) <= 10 ^ 8)
    by (apply Z.pow_le_mono_r; lia).
  change (10 ^ 8) with 100000000 in Hp.
  exists (be_val 10 0 (d :: ds)). rewrite Hs.
  apply ParseInt_digits; [exact Hd10 | exact Hz | unfold two63; lia].
Qed.

Lemma firstn_exact {A : Type} (l r : list A) : firstn (length l) (l ++ r) = l.
Proof.
  induction l as [|a l IH]; simpl.
  - destruct r; reflexivity.
  - f_equal. exact IH.
Qed.

Lemma skipn_exact {A : Type} (l r : list A) : skipn (length l) (l ++ r) = r.
Proof.
  induction l as [|a l IH]; simpl; [reflexivity | exact IH].
Qed.

(** An ASCII byte that is no white space: [TrimSpace] stops at it. *)
Definition solid (c : byte) : bool :=
  negb (bytes.RuneSelf <=? b2z c) && negb (bytes.asciiSpace c).

(** A field of [n] bytes: [s] then spaces. *)
Definition pad (s : list byte) (n : Z) : list byte :=
  s ++ repeat x20 (Z.to_nat (n - len s)).

Lemma pad_length (s : list byte) (n : Z) :
  len s <= n -> length (pad s n) = Z.to_nat n.
Proof.
  intros H. unfold pad, len in *. rewrite length_app, repeat_length. lia.
Qed.

Lemma writeHeaderField_fits (buf s : list byte) (n : Z) :
  len s <= n -> ar.writeHeaderField buf s n = Done (buf ++ pad s n).
Proof.
  intros H. unfold ar.writeHeaderField.
  replace (n - len s <? 0) with false by (symmetry; apply Z.ltb_ge; lia).
  reflexivity.
Qed.

Lemma writeHeaderField_wide (buf s : list byte) (n : Z) :
  n < len s -> ar.writeHeaderField buf s n = Panic.
Proof.
  intros H. unfold ar.writeHeaderField.
  replace (n - len s <? 0) with true by (symmetry; apply Z.ltb_lt; lia).
  reflexivity.
Qed.

Lemma ReadFull_exact (fld rest : list byte) (n : Z) :
  length fld = Z.to_nat n -> 0 <= n ->
  ar.ReadFull (fld ++ rest) n = (fld, None, rest).
Proof.
  intros Hl Hn. unfold ar.ReadFull. rewrite <- Hl.
  rewrite firstn_exact, skipn_exact.
  replace (len fld =? Z.max 0 n) with true; [reflexivity|].
  symmetry. apply Z.eqb_eq. unfold len. lia.
Qed.

Lemma digit_char_solid (d : Z) :
  0 <= d < 10 -> solid (strconv.digit_char d) = true.
Proof.
  intros H. unfold solid, bytes.asciiSpace, bytes.RuneSelf.
  rewrite digit_char_dec by exact H.
  repeat match goal with
         | |- context [?a <=? ?b] =>
             replace (a <=? b) with false by (symmetry; apply Z.leb_gt; lia)
         | |- context [?a =? ?b] =>
             replace (a =? b) with false by (symmetry; apply Z.eqb_neq; lia)
         end.
  reflexivity.
Qed.

Lemma digits_solid (b : Z) (ds : list Z) :
  b <= 10 -> Forall (is_digit b) ds ->
  Forall (fun c => solid c = true) (map strconv.digit_char ds).
Proof.
  intros Hb H. induction H as [|d ds Hd _ IH]; simpl; constructor.
  - apply digit_char_solid. unfold is_digit in Hd. lia.
  - exact IH.
Qed.

Lemma FormatInt_solid (b n : Z) :
  2 <= b <= 10 -> - two63 < n < two63 ->
  strconv.FormatInt n b <> [] /\
  Forall (fun c => solid c = true) (strconv.FormatInt n b).
Proof.
  intros Hb Hn. unfold strconv.FormatInt.
  destruct (n <? 0) eqn:E.
  - apply Z.ltb_lt in E.
    destruct (FormatUint_shape (b := b) (n := - n) ltac:(lia) ltac:(lia))
      as (d & ds & Hs & Hd & _).
    split; [discriminate|]. constructor; [reflexivity|].
    rewrite Hs. apply digits_solid with (b := b); [lia | exact Hd].
  - apply Z.ltb_ge in E.
    destruct (FormatUint_shape (b := b) (n := n) ltac:(lia) ltac:(lia))
      as (d & ds & Hs & Hd & _).
    rewrite Hs. split; [discriminate|].
    apply digits_solid with (b := b); [lia | exact Hd].
Qed.

Lemma FormatInt_length (b n : Z) (k : nat) :
  2 <= b -> - b ^ Z.of_nat k < n < b ^ Z.of_nat (S k) ->
  (1 <= k)%nat -> (S k <= 64)%nat ->
  len (strconv.FormatInt n b) <= Z.of_nat (S k).
Proof.
  intros Hb Hn Hk Hk'. unfold strconv.FormatInt.
  destruct (n <? 0) eqn:E.
  - apply Z.ltb_lt in E.
    pose proof (FormatUint_length (b := b) (n := - n) (k := k)
                  ltac:(lia) ltac:(lia) ltac:(lia)) as H.
    unfold len in *. cbn [length]. lia.
  - apply Z.ltb_ge in E.
    apply FormatUint_length; lia.
Qed.

Lemma Base_length (p : list byte) :
  (length (path.Base p) <= Nat.max 1 (length p))%nat.
Proof.
  assert (Hu : forall l, (length (path.until_slash l) <= length l)%nat).
  { induction l as [|c l IH]; simpl; [lia|].
    destruct (path.is_slash c); simpl; lia. }
  assert (Hs : forall l, (length (path.drop_slashes l) <= length l)%nat).
  { induction l as [|c l IH]; simpl; [lia|].
    destruct (path.is_slash c); simpl; lia. }
  unfold path.Base. destruct p as [|c p]; [simpl; lia|].
  destruct (rev (path.until_slash (path.drop_slashes (rev (c :: p))))) eqn:E.
  - simpl. lia.
  - rewrite <- E, length_rev.
    specialize (Hu (path.drop_slashes (rev (c :: p)))).
    specialize (Hs (rev (c :: p))). rewrite length_rev in Hs. lia.
Qed.

Section TrimFacts.

Variable f : list byte -> list byte.

Lemma trim_stop_spaces (k : nat) (r : list byte) :
  bytes.trim_stop (repeat x20 k ++ r) = bytes.trim_stop r.
Proof.
  induction k as [|k IH]; [reflexivity | exact IH].
Qed.

(** [TrimSpace] gives back a string that starts and ends with solid
    bytes from the field padded with spaces. *)
Lemma TrimSpace_padded (s : list byte) (k : nat) :
  s <> [] -> solid (hd x00 s) = true -> solid (hd x00 (rev s)) = true ->
  bytes.TrimSpace f (s ++ repeat x20 k) = s.
Proof.
  intros Hne Hf Hl. destruct s as [|c m]; [congruence|].
  unfold bytes.TrimSpace. cbn [hd] in Hf.
  assert (Hstart : bytes.trim_start ((c :: m) ++ repeat x20 k) =
                   inl ((c :: m) ++ repeat x20 k)).
  { cbn [app bytes.trim_start]. unfold solid in Hf.
    apply andb_prop in Hf. destruct Hf as [H1 H2].
    apply negb_true_iff in H1. apply negb_true_iff in H2.
    rewrite H1, H2. reflexivity. }
  rewrite Hstart, rev_app_distr, rev_repeat, trim_stop_spaces.
  destruct (rev (c :: m)) as [|c' m'] eqn:R.
  - apply (f_equal (@length byte)) in R. rewrite length_rev in R. discriminate.
  - cbn [hd] in Hl. cbn [bytes.trim_stop]. unfold solid in Hl.
    apply andb_prop in Hl. destruct Hl as [H1 H2].
    apply negb_true_iff in H1. apply negb_true_iff in H2.
    rewrite H1, H2, <- R. apply rev_involutive.
Qed.

Lemma TrimSpace_solid (s : list byte) (k : nat) :
  s <> [] -> Forall (fun c => solid c = true) s ->
  bytes.TrimSpace f (s ++ repeat x20 k) = s.
Proof.
  intros Hne Hs. apply TrimSpace_padded; [exact Hne | |].
  - destruct s; [congruence|]. inversion Hs; assumption.
  - apply Forall_rev in Hs. destruct (rev s) eqn:R.
    + apply (f_equal (@length byte)) in R. rewrite length_rev in R.
      destruct s; [congruence | discriminate].
    + inversion Hs; assumption.
Qed.

Lemma readHeaderField_pad (s rest : list byte) (n : Z) :
  len s <= n ->
  ar.readHeaderField f (pad s n ++ rest) n =
  (bytes.TrimSpace f (pad s n), None, rest).
Proof.
  intros H. unfold ar.readHeaderField.
  rewrite ReadFull_exact; [reflexivity | apply pad_length; exact H |].
  pose proof (len_nonneg s). lia.
Qed.

Lemma readInt_pad (s rest : list byte) (n v : Z) :
  len s <= n -> s <> [] -> Forall (fun c => solid c = true) s ->
  strconv.ParseInt s 0 64 = (v, None) ->
  ar.readInt f (pad s n ++ rest) n = (v, None, rest).
Proof.
  intros Hl Hne Hs Hp. unfold ar.readInt.
  rewrite readHeaderField_pad by exact Hl.
  unfold pad. rewrite TrimSpace_solid by assumption.
  rewrite Hp. reflexivity.
Qed.

End TrimFacts.

(** ** Facts on package ar *)

(** A header whose fields fit the widths of the format. *)
Definition fits (h : ar.Header) : Prop :=
  len (ar.Name h) <= 15 /\
  0 <= ar.Uid h < 10 ^ 6 /\
  0 <= ar.Gid h < 10 ^ 6 /\
  0 <= ar.Mode h < 8 ^ 8 /\
  0 <= ar.Length h < 10 ^ 10 /\
  - 10 ^ 11 < ar.Unix (ar.ModTime h) < 10 ^ 12.

(** The six fields of a header that fits, 58 bytes, and the header with
    its trailer. *)
Definition fields (h : ar.Header) : list byte :=
  pad (path.Base (ar.Name h) ++ str "/") 16 ++
  pad (strconv.FormatInt (ar.Unix (ar.ModTime h)) 10) 12 ++
  pad (strconv.FormatInt (ar.Uid h) 10) 6 ++
  pad (strconv.FormatInt (ar.Gid h) 10) 6 ++
  pad (strconv.FormatInt (ar.Mode h) 8) 8 ++
  pad (strconv.FormatInt (ar.Length h) 10) 10.

Definition encoded (h : ar.Header) : list byte := fields h ++ ar.linefeed.

Lemma fits_widths (h : ar.Header) :
  fits h ->
  len (path.Base (ar.Name h) ++ str "/") <= 16 /\
  len (strconv.FormatInt (ar.Unix (ar.ModTime h)) 10) <= 12 /\
  len (strconv.FormatInt (ar.Uid h) 10) <= 6 /\
  len (strconv.FormatInt (ar.Gid h) 10) <= 6 /\
  len (strconv.FormatInt (ar.Mode h) 8) <= 8 /\
  len (strconv.FormatInt (ar.Length h) 10) <= 10.
Proof.
  intros (Hn & Hu & Hg & Hm & Hl & Ht).
  change (10 ^ 6) with 1000000 in *. change (8 ^ 8) with 16777216 in *.
  change (10 ^ 10) with 10000000000 in *.
  change (10 ^ 11) with 100000000000 in *.
  change (10 ^ 12) with 1000000000000 in *.
  repeat split.
  - pose proof (Base_length (ar.Name h)) as Hb.
    rewrite len_app. unfold len in *. simpl (length (str "/")). lia.
  - apply (FormatInt_length (b := 10) (k := 11)); lia.
  - apply (FormatInt_length (b := 10) (k := 5)); lia.
  - apply (FormatInt_length (b := 10) (k := 5)); lia.
  - apply (FormatInt_length (b := 8) (k := 7)); lia.
  - apply (FormatInt_length (b := 10) (k := 9)); lia.
Qed.

Lemma encodeHeader_fits (h : ar.Header) :
  fits h -> ar.encodeHeader h = Done (encoded h).
Proof.
  intros H. destruct (fits_widths H) as (H1 & H2 & H3 & H4 & H5 & H6).
  unfold ar.encodeHeader.
  rewrite (writeHeaderField_fits [] _ H1). cbn [obind].
  rewrite (writeHeaderField_fits _ _ H2). cbn [obind].
  rewrite (writeHeaderField_fits _ _ H3). cbn [obind].
  rewrite (writeHeaderField_fits _ _ H4). cbn [obind].
  rewrite (writeHeaderField_fits _ _ H5). cbn [obind].
  rewrite (writeHeaderField_fits _ _ H6). cbn [obind].
  unfold encoded, fields. rewrite <- !app_assoc. reflexivity.
Qed.

Lemma fields_length (h : ar.Header) : fits h -> length (fields h) = 58%nat.
Proof.
  intros H. destruct (fits_widths H) as (H1 & H2 & H3 & H4 & H5 & H6).
  unfold fields. rewrite !length_app, !pad_length by assumption.
  reflexivity.
Qed.

Lemma encoded_length (h : ar.Header) : fits h -> length (encoded h) = 60%nat.
Proof.
  intros H. unfold encoded. rewrite length_app, fields_length by exact H.
  reflexivity.
Qed.

Section NextFacts.

Variable f : list byte -> list byte.

(** What [Next] decodes from the bytes of [h]: [v] is the mode read. *)
Definition decoded (h : ar.Header) (v : Z) : ar.Header :=
  {| ar.Name := bytes.TrimSpace f (pad (path.Base (ar.Name h) ++ str "/") 16);
     ar.Uid := ar.Uid h;
     ar.Gid := ar.Gid h;
     ar.Mode := v;
     ar.Length := ar.Length h;
     ar.ModTime := ar.time_Unix (ar.Unix (ar.ModTime h)) 0 |}.

Lemma fits_two63 (h : ar.Header) :
  fits h ->
  - two63 < ar.Unix (ar.ModTime h) < two63 /\
  - two63 < ar.Uid h < two63 /\
  - two63 < ar.Gid h < two63 /\
  - two63 < ar.Mode h < two63 /\
  - two63 < ar.Length h < two63.
Proof.
  intros (Hn & Hu & Hg & Hm & Hl & Ht).
  change (10 ^ 6) with 1000000 in *. change (8 ^ 8) with 16777216 in *.
  change (10 ^ 10) with 10000000000 in *.
  change (10 ^ 11) with 100000000000 in *.
  change (10 ^ 12) with 1000000000000 in *.
  unfold two63. lia.
Qed.

Lemma readInt_FormatInt (n w : Z) (rest : list byte) :
  - two63 < n < two63 -> len (strconv.FormatInt n 10) <= w ->
  ar.readInt f (pad (strconv.FormatInt n 10) w ++ rest) w = (n, None, rest).
Proof.
  intros Hn Hw.
  destruct (FormatInt_solid (b := 10) (n := n) ltac:(lia) Hn) as [Hne Hs].
  apply readInt_pad; try assumption.
  apply ParseInt_FormatInt. exact Hn.
Qed.

(** The trailer step of [Next], once the six fields gave [h]: the two
    bytes are read and compared with the delimiter. *)
Definition trailer_step (r : ar.Reader) (h : ar.Header) (rest : list byte)
  : option ar.Header * option error * ar.Reader :=
  match rest with
  | [] => (None, Some EOF,
           {| ar.r_inner := []; ar.r_hdr := ar.r_hdr r; ar.r_err := None |})
  | _ =>
      let got := firstn 2 rest in
      let bs := got ++ repeat x00 (2 - length got) in
      if negb (ar.Equal bs ar.linefeed) then
        (None, None,
         {| ar.r_inner := skipn 2 rest; ar.r_hdr := ar.r_hdr r;
            ar.r_err := None |})
      else
        (Some h, None,
         {| ar.r_inner := skipn 2 rest; ar.r_hdr := Some h; ar.r_err := None |})
  end.

(** [Next] on the six fields of a header that fits decodes them and goes
    on to the trailer. *)
Lemma Next_fields (h : ar.Header) (rest : list byte) (hdr0 : option ar.Header) :
  fits h ->
  exists v,
    ar.Next f {| ar.r_inner := fields h ++ rest; ar.r_hdr := hdr0;
                 ar.r_err := None |} =
    trailer_step {| ar.r_inner := fields h ++ rest; ar.r_hdr := hdr0;
                    ar.r_err := None |} (decoded h v) rest.
Proof.
  intros H.
  destruct (fits_widths H) as (H1 & H2 & H3 & H4 & H5 & H6).
  destruct (fits_two63 H) as (T1 & T2 & T3 & T4 & T5).
  pose proof (fields_length H) as Hlen58.
  destruct H as (Hn & Hu & Hg & Hm & Hl & Ht).
  destruct (ParseInt_FormatInt_octal Hm) as [v Hv].
  destruct (FormatInt_solid (b := 8) (n := ar.Mode h) ltac:(lia) T4)
    as [Hne Hs].
  exists v. unfold ar.Next. cbn [ar.r_err ar.r_inner ar.r_hdr].
  assert (Hlen : (len (fields h ++ rest) <? 16) = false).
  { apply Z.ltb_ge. rewrite len_app. unfold len at 1. rewrite Hlen58.
    pose proof (len_nonneg rest). lia. }
  rewrite Hlen. unfold fields. rewrite <- !app_assoc.
  unfold ar.readFilename. rewrite readHeaderField_pad by exact H1.
  unfold ar.readModTime. rewrite readInt_FormatInt by assumption.
  unfold ar.readFileInfos.
  rewrite readInt_FormatInt by assumption.
  rewrite readInt_FormatInt by assumption.
  rewrite (readInt_pad f _ H5 Hne Hs Hv).
  rewrite readInt_FormatInt by assumption.
  reflexivity.
Qed.

Lemma Next_encoded (h : ar.Header) (tail : list byte) (hdr0 : option ar.Header) :
  fits h ->
  exists v,
    ar.Next f {| ar.r_inner := encoded h ++ tail; ar.r_hdr := hdr0;
                 ar.r_err := None |} =
    (Some (decoded h v), None,
     {| ar.r_inner := tail; ar.r_hdr := Some (decoded h v); ar.r_err := None |}).
Proof.
  intros H. destruct (Next_fields (ar.linefeed ++ tail) hdr0 H) as [v Hv].
  exists v. unfold encoded. rewrite <- app_assoc, Hv. reflexivity.
Qed.

End NextFacts.

Lemma NewReader_magic (s : list byte) :
  ar.NewReader (ar.magic ++ [x0a] ++ s) =
  (Some {| ar.r_inner := s; ar.r_hdr := None; ar.r_err := None |}, None).
Proof.
  unfold ar.NewReader.
  assert (Hl : len (ar.magic ++ [x0a] ++ s) = 8 + len s).
  { rewrite !len_app. change (len ar.magic) with 7.
    change (len [x0a]) with 1. lia. }
  rewrite Hl. pose proof (len_nonneg s) as Hs.
  change (len ar.magic) with 7.
  replace (8 + len s <? 7) with false by (symmetry; apply Z.ltb_ge; lia).
  replace (8 + len s <? 7 + 1) with false by (symmetry; apply Z.ltb_ge; lia).
  reflexivity.
Qed.

Lemma NewWriter_WriteHeader (h : ar.Header) :
  fits h ->
  ar.WriteHeader (fst (ar.NewWriter [])) h =
  Done (None, {| ar.w_inner := ar.magic ++ [x0a] ++ encoded h;
                 ar.w_hdr := h; ar.w_err := None |}).
Proof.
  intros H. unfold ar.WriteHeader, ar.NewWriter. cbn [fst ar.w_err ar.w_inner].
  rewrite encodeHeader_fits by exact H. cbn [obind app].
  rewrite <- app_assoc. reflexivity.
Qed.

(** The claim of the specification on headers, as it words it: decoding
    the encoded header gives every field back, the modification time to
    the second. *)
Definition spec_header_roundtrip (f : list byte -> list byte) (h : ar.Header)
  : Prop :=
  exists w r h' r',
    ar.WriteHeader (fst (ar.NewWriter [])) h = Done (None, w) /\
    ar.NewReader (ar.w_inner w) = (Some r, None) /\
    ar.Next f r = (Some h', None, r') /\
    ar.Name h' = ar.Name h /\
    ar.Uid h' = ar.Uid h /\
    ar.Gid h' = ar.Gid h /\
    ar.Mode h' = ar.Mode h /\
    ar.Length h' = ar.Length h /\
    ar.Unix (ar.ModTime h') = ar.Unix (ar.ModTime h).

(** The claim of the specification on [read] before [next]: an error is
    returned. *)
Definition spec_read_usage_error (r : ar.Reader) (buf : list byte) : Prop :=
  exists buf' n e r', ar.Read r buf = Done (buf', n, Some e, r').

Section ArClaims.

Variable f : list byte -> list byte.

(** C4, as amended. A header that fits the field widths (name of at most
    15 bytes, uid and gid below 10^6, mode below 8^8, length below 10^10,
    modification time of at most 12 characters) and whose base name starts
    with an ASCII byte that is no white space is written by [WriteHeader]
    and read back by [Next] with the name [path.Base(name) + "/"] and the
    same uid, gid, length and modification time in seconds; the reader is
    left at the bytes that follow the header. *)
Theorem header_roundtrip_amended (h : ar.Header) (tail : list byte) :
  fits h -> solid (hd x20 (path.Base (ar.Name h))) = true ->
  exists w r h' r',
    ar.WriteHeader (fst (ar.NewWriter [])) h = Done (None, w) /\
    ar.NewReader (ar.w_inner w ++ tail) = (Some r, None) /\
    ar.Next f r = (Some h', None, r') /\
    ar.Name h' = path.Base (ar.Name h) ++ str "/" /\
    ar.Uid h' = ar.Uid h /\
    ar.Gid h' = ar.Gid h /\
    ar.Length h' = ar.Length h /\
    ar.Unix (ar.ModTime h') = ar.Unix (ar.ModTime h) /\
    ar.r_inner r' = tail.
Proof.
  intros Hfit Hsolid.
  destruct (Next_encoded f tail None Hfit) as [v Hv].
  destruct (fits_widths Hfit) as (H1 & _).
  eexists _, _, (decoded f h v), _.
  split; [apply NewWriter_WriteHeader; exact Hfit|].
  cbn [ar.w_inner]. rewrite <- !app_assoc.
  split; [apply NewReader_magic|].
  split; [exact Hv|].
  repeat split.
  cbn [decoded ar.Name]. unfold pad. apply TrimSpace_padded.
  - destruct (path.Base (ar.Name h)); discriminate.
  - destruct (path.Base (ar.Name h)); [reflexivity | exact Hsolid].
  - rewrite rev_app_distr. reflexivity.
Qed.

(** C5. A payload of [L] bytes written after a header that fits and
    declares the length [L] makes an entry of [58 + 2 + L + L mod 2]
    bytes; [Next] then [Read] with a buffer of at least [L] bytes return
    the [L] bytes of the payload and leave the reader after the pad
    byte. *)
Theorem payload_roundtrip (h : ar.Header) (payload buf tail : list byte) :
  fits h -> ar.Length h = len payload -> len payload <= len buf ->
  exists w1 w2 entry r0 h' r1 buf' r2,
    ar.WriteHeader (fst (ar.NewWriter [])) h = Done (None, w1) /\
    ar.Write w1 payload = (len payload, None, w2) /\
    ar.w_inner w2 = ar.magic ++ [x0a] ++ entry /\
    len entry = 58 + 2 + len payload + len payload mod 2 /\
    ar.NewReader (ar.w_inner w2 ++ tail) = (Some r0, None) /\
    ar.Next f r0 = (Some h', None, r1) /\
    ar.Read r1 buf = Done (buf', len payload, None, r2) /\
    firstn (length payload) buf' = payload /\
    ar.r_inner r2 = tail.
Proof.
  intros Hfit HL Hbuf.
  set (pb := if len payload mod 2 =? 1 then [x0a] else @nil byte).
  destruct (Next_encoded f (payload ++ pb ++ tail) None Hfit) as [v Hv].
  pose proof (len_nonneg payload) as Hnn.
  eexists _, _, (encoded h ++ payload ++ pb), _, (decoded f h v), _, _, _.
  split; [apply NewWriter_WriteHeader; exact Hfit|].
  split; [reflexivity|].
  cbn [ar.w_inner].
  assert (Hvs : (if len payload mod 2 =? 1 then payload ++ [x0a] else payload)
                = payload ++ pb).
  { unfold pb. destruct (len payload mod 2 =? 1);
      [reflexivity | symmetry; apply app_nil_r]. }
  rewrite Hvs.
  split; [rewrite <- !app_assoc; reflexivity|].
  split.
  { rewrite !len_app. unfold len at 1. rewrite encoded_length by exact Hfit.
    unfold pb. pose proof (Z.mod_pos_bound (len payload) 2 ltac:(lia)).
    destruct (len payload mod 2 =? 1) eqn:E.
    - apply Z.eqb_eq in E. change (len [x0a]) with 1. lia.
    - apply Z.eqb_neq in E. change (len (@nil byte)) with 0. lia. }
  split.
  { rewrite <- !app_assoc. apply NewReader_magic. }
  split; [exact Hv|].
  unfold ar.Read. cbn [ar.r_err ar.r_hdr ar.r_inner decoded ar.Length].
  rewrite HL.
  replace (len payload <? 0) with false by (symmetry; apply Z.ltb_ge; lia).
  rewrite ReadFull_exact by (unfold len; lia).
  assert (Hmin : Nat.min (length buf) (length payload) = length payload)
    by (unfold len in Hbuf; lia).
  rewrite Hmin, firstn_all.
  assert (Hrest : (if len payload mod 2 =? 1 then skipn 1 (pb ++ tail)
                   else pb ++ tail) = tail).
  { unfold pb. destruct (len payload mod 2 =? 1); reflexivity. }
  rewrite Hrest.
  split; [unfold len; reflexivity|].
  split; [apply firstn_exact | reflexivity].
Qed.

(** C6, what the code does. When the six fields decode and the two bytes
    that follow are not the delimiter 0x60 0x0A, [Next] returns neither a
    header nor an error. *)
Theorem Next_trailer_mismatch (h : ar.Header) (b1 b2 : byte)
        (tail : list byte) (hdr0 : option ar.Header) :
  fits h -> ar.Equal [b1; b2] ar.linefeed = false ->
  ar.Next f {| ar.r_inner := fields h ++ b1 :: b2 :: tail; ar.r_hdr := hdr0;
               ar.r_err := None |} =
  (None, None, {| ar.r_inner := tail; ar.r_hdr := hdr0; ar.r_err := None |}).
Proof.
  intros Hfit Hne.
  destruct (Next_fields f (b1 :: b2 :: tail) hdr0 Hfit) as [v Hv].
  rewrite Hv. unfold trailer_step.
  cbn [firstn length Nat.sub repeat app skipn ar.r_hdr].
  rewrite Hne. reflexivity.
Qed.

Variable fsys : list byte -> option (list byte).

(** C7, what the code does. When [Next] fails on the first header with
    an error other than [io.EOF], [List] does not return it: it goes on to
    [h.Length] with the nil header and panics. *)
Theorem List_decode_error_panics (file content : list byte) (r r' : ar.Reader)
        (e : error) :
  fsys file = Some content ->
  ar.NewReader content = (Some r, None) ->
  ar.Next f r = (None, Some e, r') ->
  e <> EOF ->
  ar.List f fsys file = Some Panic.
Proof.
  intros Hopen Hnew Hnext Hne. unfold ar.List.
  rewrite Hopen, Hnew. cbn [ar.list_loop]. rewrite Hnext.
  destruct e; try reflexivity. congruence.
Qed.

End ArClaims.

(** C10, as amended. [Read] on a reader that holds no header (no [Next]
    has succeeded on it) returns no usage error: it panics on the nil
    header when the reader has recorded no error, and returns 0 bytes
    with the recorded error otherwise, the reader unchanged. *)
Theorem Read_without_header (r : ar.Reader) (buf : list byte) :
  ar.r_hdr r = None ->
  (ar.r_err r = None -> ar.Read r buf = Panic) /\
  (forall e, ar.r_err r = Some e -> ar.Read r buf = Done (buf, 0, Some e, r)).
Proof.
  intros Hh. unfold ar.Read. split.
  - intros He. rewrite He, Hh. reflexivity.
  - intros e He. rewrite He. reflexivity.
Qed.

(** ** The claims on package ar at concrete inputs *)

(** A fallback for input that holds no Unicode white space. *)
Definition no_unicode_trim (s : list byte) : list byte := s.

Definition demo_header : ar.Header :=
  {| ar.Name := str "dir/hello.txt"; ar.Uid := 1000; ar.Gid := 1000;
     ar.Mode := 420; ar.Length := 10;
     ar.ModTime := {| ar.sec := 1500000000; ar.nsec := 250 |} |}.

Definition demo_payload : list byte := str "0123456789".

Lemma demo_header_fits : fits demo_header.
Proof.
  unfold fits. cbn. lia.
Qed.

Lemma header_roundtrip_witness :
  exists w r h' r',
    ar.WriteHeader (fst (ar.NewWriter [])) demo_header = Done (None, w) /\
    ar.NewReader (ar.w_inner w ++ demo_payload) = (Some r, None) /\
    ar.Next no_unicode_trim r = (Some h', None, r') /\
    ar.Name h' = path.Base (ar.Name demo_header) ++ str "/" /\
    ar.Uid h' = ar.Uid demo_header /\
    ar.Gid h' = ar.Gid demo_header /\
    ar.Length h' = ar.Length demo_header /\
    ar.Unix (ar.ModTime h') = ar.Unix (ar.ModTime demo_header) /\
    ar.r_inner r' = demo_payload.
Proof.
  apply (@header_roundtrip_amended no_unicode_trim demo_header demo_payload).
  - unfold fits. cbn. lia.
  - reflexivity.
Defined.

(** The header that refutes the round trip as the specification words it:
    the name ["a"] comes back as ["a/"]. *)
Definition plain_header : ar.Header :=
  {| ar.Name := str "a"; ar.Uid := 0; ar.Gid := 0; ar.Mode := 0;
     ar.Length := 0; ar.ModTime := ar.time_Unix 0 0 |}.

Lemma header_roundtrip_counterexample :
  ~ (forall (f : list byte -> list byte) (h : ar.Header),
        len (ar.Name h) <= 15 -> 0 <= ar.Uid h -> 0 <= ar.Gid h ->
        0 <= ar.Mode h -> 0 <= ar.Length h ->
        spec_header_roundtrip f h).
Proof.
  intros H.
  destruct (H no_unicode_trim plain_header) as (w & r & h' & r' & E1 & E2 & E3 & En & _);
    try (cbn; lia).
  vm_compute in E1. injection E1 as <-.
  vm_compute in E2. injection E2 as <-.
  vm_compute in E3. injection E3 as <- <-.
  vm_compute in En. discriminate En.
Qed.

(** The same header read back, and the mode 0644 that comes back as 644:
    it is written in base 8 and parsed as a decimal number. *)
Example plain_header_decoded :
  ar.Next no_unicode_trim
    {| ar.r_inner := str "a/              0           0     0     0       0         `" ++ [x0a];
       ar.r_hdr := None; ar.r_err := None |} =
  (Some {| ar.Name := str "a/"; ar.Uid := 0; ar.Gid := 0; ar.Mode := 0;
           ar.Length := 0; ar.ModTime := ar.time_Unix 0 0 |}, None,
   {| ar.r_inner := [];
      ar.r_hdr := Some {| ar.Name := str "a/"; ar.Uid := 0; ar.Gid := 0;
                          ar.Mode := 0; ar.Length := 0;
                          ar.ModTime := ar.time_Unix 0 0 |};
      ar.r_err := None |}).
Proof. vm_compute. reflexivity. Qed.

Example mode_read_in_base_10 :
  ar.encodeHeader demo_header =
    Done (str "hello.txt/      1500000000  1000  1000  644     10        `" ++ [x0a]) /\
  exists h r,
    ar.Next no_unicode_trim
      {| ar.r_inner := encoded demo_header; ar.r_hdr := None; ar.r_err := None |}
    = (Some h, None, r) /\ ar.Mode h = 644.
Proof.
  split; [vm_compute; reflexivity|].
  eexists _, _. split; [vm_compute; reflexivity | reflexivity].
Qed.

(** A uid of seven digits does not fit its field: [WriteHeader] panics. *)
Example WriteHeader_wide_uid :
  ar.WriteHeader (fst (ar.NewWriter []))
    {| ar.Name := str "a"; ar.Uid := 1000000; ar.Gid := 0; ar.Mode := 0;
       ar.Length := 0; ar.ModTime := ar.time_Unix 0 0 |} = Panic.
Proof. vm_compute. reflexivity. Qed.

Lemma payload_roundtrip_witness :
  exists w1 w2 entry r0 h' r1 buf' r2,
    ar.WriteHeader (fst (ar.NewWriter [])) demo_header = Done (None, w1) /\
    ar.Write w1 demo_payload = (len demo_payload, None, w2) /\
    ar.w_inner w2 = ar.magic ++ [x0a] ++ entry /\
    len entry = 58 + 2 + len demo_payload + len demo_payload mod 2 /\
    ar.NewReader (ar.w_inner w2 ++ []) = (Some r0, None) /\
    ar.Next no_unicode_trim r0 = (Some h', None, r1) /\
    ar.Read r1 (repeat x00 16) = Done (buf', len demo_payload, None, r2) /\
    firstn (length demo_payload) buf' = demo_payload /\
    ar.r_inner r2 = [].
Proof.
  apply (@payload_roundtrip no_unicode_trim demo_header demo_payload
           (repeat x00 16) []).
  - unfold fits. cbn. lia.
  - reflexivity.
  - vm_compute. discriminate.
Defined.

(** A payload of odd length: the pad byte is written and skipped. *)
Example odd_payload_stream :
  let h := {| ar.Name := str "x"; ar.Uid := 0; ar.Gid := 0; ar.Mode := 0;
              ar.Length := 3; ar.ModTime := ar.time_Unix 0 0 |} in
  exists w1 w2 h' r1 buf' r2,
    ar.WriteHeader (fst (ar.NewWriter [])) h = Done (None, w1) /\
    ar.Write w1 (str "abc") = (3, None, w2) /\
    len (ar.w_inner w2) = 8 + 58 + 2 + 3 + 1 /\
    ar.Next no_unicode_trim
      {| ar.r_inner := skipn 8 (ar.w_inner w2) ++ str "next";
         ar.r_hdr := None; ar.r_err := None |} = (Some h', None, r1) /\
    ar.Read r1 (repeat x00 3) = Done (buf', 3, None, r2) /\
    buf' = str "abc" /\ ar.r_inner r2 = str "next".
Proof.
  cbv zeta. eexists _, _, _, _, _, _.
  split; [vm_compute; reflexivity|].
  split; [vm_compute; reflexivity|].
  split; [vm_compute; reflexivity|].
  split; [vm_compute; reflexivity|].
  split; [vm_compute; reflexivity|].
  split; reflexivity.
Qed.

(** C6 at a concrete input: a valid header followed by ["XX"]. *)
Lemma Next_trailer_mismatch_witness :
  ar.Next no_unicode_trim
    {| ar.r_inner := fields demo_header ++ x58 :: x58 :: demo_payload;
       ar.r_hdr := None; ar.r_err := None |} =
  (None, None,
   {| ar.r_inner := demo_payload; ar.r_hdr := None; ar.r_err := None |}).
Proof.
  apply (@Next_trailer_mismatch no_unicode_trim demo_header x58 x58
           demo_payload None).
  - unfold fits. cbn. lia.
  - reflexivity.
Defined.

Example Next_trailer_mismatch_bytes :
  ar.Next no_unicode_trim
    {| ar.r_inner :=
         str "hello.txt/      1500000000  1000  1000  644     10        XX0123456789";
       ar.r_hdr := None; ar.r_err := None |} =
  (None, None,
   {| ar.r_inner := str "0123456789"; ar.r_hdr := None; ar.r_err := None |}).
Proof. vm_compute. reflexivity. Qed.

(** C7 at a concrete input: an archive whose first header has the uid
    field ["abc"]. *)
Definition bad_archive : list byte :=
  ar.magic ++ [x0a] ++
  str "hello.txt/      1500000000  abc   1000  644     10        `" ++ [x0a] ++
  str "0123456789".

Definition demo_fsys (p : list byte) : option (list byte) :=
  if ar.Equal p (str "bad.ar") then Some bad_archive else None.

Lemma List_decode_error_witness :
  ar.List no_unicode_trim demo_fsys (str "bad.ar") = Some Panic.
Proof.
  apply (@List_decode_error_panics no_unicode_trim demo_fsys (str "bad.ar")
           bad_archive
           {| ar.r_inner := skipn 8 bad_archive; ar.r_hdr := None;
              ar.r_err := None |}
           {| ar.r_inner := skipn 34 (skipn 8 bad_archive);
              ar.r_hdr := None; ar.r_err := Some ErrSyntax |}
           ErrSyntax).
  - reflexivity.
  - vm_compute. reflexivity.
  - vm_compute. reflexivity.
  - discriminate.
Defined.

(** C10 at a concrete input: a reader fresh from [NewReader]. *)
Lemma Read_without_header_witness :
  (ar.r_err {| ar.r_inner := demo_payload; ar.r_hdr := None; ar.r_err := None |}
   = None ->
   ar.Read {| ar.r_inner := demo_payload; ar.r_hdr := None; ar.r_err := None |}
     (repeat x00 4) = Panic) /\
  (forall e,
      ar.r_err {| ar.r_inner := demo_payload; ar.r_hdr := None; ar.r_err := None |}
      = Some e ->
      ar.Read {| ar.r_inner := demo_payload; ar.r_hdr := None; ar.r_err := None |}
        (repeat x00 4) =
      Done (repeat x00 4, 0, Some e,
            {| ar.r_inner := demo_payload; ar.r_hdr := None; ar.r_err := None |})).
Proof.
  apply (@Read_without_header
           {| ar.r_inner := demo_payload; ar.r_hdr := None; ar.r_err := None |}
           (repeat x00 4)).
  reflexivity.
Defined.

Lemma Read_usage_counterexample :
  ~ (forall (src : list byte) (r : ar.Reader) (buf : list byte),
        ar.NewReader src = (Some r, None) -> spec_read_usage_error r buf).
Proof.
  intros H.
  destruct (H (ar.magic ++ [x0a] ++ demo_payload) _ (repeat x00 4)
              (NewReader_magic demo_payload)) as (buf' & n & e & r' & E).
  vm_compute in E. discriminate E.
Qed.

(** ** Package rpm *)

Module rpm.

Definition SigTypeRPM : Z := 5.
Definition MajorRPM : Z := 3.
Definition MinorRPM : Z := 0.
Definition MagicRPM : Z := 0xedabeedb.
Definition MagicHDR : Z := 0x008eade8.

Definition SigBase : Z := 256.
Definition SigLength : Z := 1000.
Definition SigPGP : Z := 1002.
Definition SigMD5 : Z := 1004.
Definition SigSha1 : Z := SigBase + 13.
Definition SigPayloadSize : Z := 1007.

Definition TagPackage : Z := 1000.
Definition TagVersion : Z := 1001.
Definition TagRelease : Z := 1002.
Definition TagSummary : Z := 1004.
Definition TagDesc : Z := 1005.
Definition TagVendor : Z := 1011.
Definition TagLicense : Z := 1014.
Definition TagURL : Z := 1020.

(** Modelled from the spec: the enumeration [EntryType] is declared in a
    file of the package that is not among the sources. The specification
    lists its members as null, char, int8/16/32/64, string, binary blob,
    string array and localized string; they are numbered from 0 in that
    order. *)
Inductive EntryType : Type :=
| Null | Char | Int8 | Int16 | Int32 | Int64
| String | Binary | StringArray | I18NString.

Definition code (t : EntryType) : Z :=
  match t with
  | Null => 0 | Char => 1 | Int8 => 2 | Int16 => 3 | Int32 => 4
  | Int64 => 5 | String => 6 | Binary => 7 | StringArray => 8
  | I18NString => 9
  end.

(** The three implementations of the interface [Field]. *)
Inductive Field : Type :=
| binarray (tag : Z) (Value : list byte)
| number (tag kind : Z) (Value : Z)
| varchar (tag : Z) (Value : list byte).

Definition Skip (f : Field) : bool :=
  match f with
  | binarray _ v => len v =? 0
  | number _ _ _ => false
  | varchar _ v => len v =? 0
  end.

Definition Tag (f : Field) : Z :=
  match f with
  | binarray t _ => t
  | number t _ _ => t
  | varchar t _ => t
  end.

Definition Type_ (f : Field) : Z :=
  match f with
  | binarray _ _ => int32 (code Binary)
  | number _ k _ => k
  | varchar _ _ => int32 (code String)
  end.

Definition Len (f : Field) : Z :=
  match f with
  | binarray _ v => int32 (len v)
  | number _ _ _ => 1
  | varchar _ _ => 1
  end.

Definition Bytes (f : Field) : list byte :=
  match f with
  | binarray _ v => v
  | number _ k v =>
      if k =? code Int8 then be_bytes 1 (int8 v)
      else if k =? code Int16 then be_bytes 2 (int16 v)
      else if k =? code Int32 then be_bytes 4 (int32 v)
      else if k =? code Int64 then be_bytes 8 (int64 v)
      else []
  | varchar _ v => v ++ [x00]
  end.

(** The three buffers of [writeFields] while it walks the fields: the
    counter [i], the index [body] and the [store]. *)
Record buffers : Type := { cnt : Z; body : list byte; store : list byte }.

(** One turn of the loop of [writeFields]. The line printed by
    [fmt.Println] goes to the standard output and is left out. *)
Definition step (st : buffers) (f : Field) : buffers :=
  if Skip f then st
  else
    {| cnt := int32 (cnt st + 1);
       body := body st ++ be_bytes 4 (Tag f) ++ be_bytes 4 (Type_ f)
                 ++ be_bytes 4 (int32 (len (store st))) ++ be_bytes 4 (Len f);
       store := store st ++ Bytes f |}.

(** [writeFields(fs, pad)]. The error it returns comes from a copy
    between two buffers and is always nil. *)
Definition writeFields (fs : list Field) (pad : bool) : list byte :=
  let st := fold_left step fs {| cnt := 0; body := []; store := [] |} in
  let meta :=
    be_bytes 4 (uint32 (Z.lor (Z.shiftl MagicHDR 8) 1)) ++
    be_bytes 4 (uint32 0) ++
    be_bytes 4 (cnt st) ++
    be_bytes 4 (int32 (len (store st))) ++
    body st ++ store st in
  let md := len meta mod 8 in
  if negb (md =? 0) && pad then meta ++ repeat x00 (Z.to_nat (8 - md))
  else meta.

(** Modelled from the spec: the struct [mack.Control] is declared outside
    the sources; these are the attributes that [controlToFields] reads. *)
Record Control : Type := {
  Package : list byte;
  Version : list byte;
  Summary : list byte;
  Desc : list byte;
  Vendor : list byte;
  License : list byte;
  Home : list byte
}.

Definition controlToFields (c : Control) : list Field :=
  [ varchar TagPackage (Package c);
    varchar TagVersion (Version c);
    varchar TagSummary (Summary c);
    varchar TagDesc (Desc c);
    varchar TagVendor (Vendor c);
    varchar TagLicense (License c);
    varchar TagURL (Home c) ].

Definition writeMetadata (c : Control) : list byte :=
  writeFields (controlToFields c) false.

(** Modelled from the spec: the struct [Lead] is declared outside the
    sources. The specification gives the widths: versions of 1 byte, type,
    architecture, OS and signature type of 2 bytes. *)
Record Lead : Type := {
  Major : Z;
  Minor : Z;
  Type_l : Z;
  Arch : Z;
  Name : list byte;
  Os : Z;
  SigType : Z
}.

(** The bytes that [writeLead] copies to the sink. *)
Definition writeLead (e : Lead) : list byte :=
  be_bytes 4 (uint32 MagicRPM) ++
  be_bytes 1 (Major e) ++
  be_bytes 1 (Minor e) ++
  be_bytes 2 (Type_l e) ++
  be_bytes 2 (Arch e) ++
  (if 66 <? len (Name e) then firstn 66 (Name e)
   else Name e ++ repeat x00 (Z.to_nat (66 - len (Name e)))) ++
  be_bytes 2 (Os e) ++
  be_bytes 2 (SigType e) ++
  be_bytes 4 (uint32 0) ++ be_bytes 4 (uint32 0) ++
  be_bytes 4 (uint32 0) ++ be_bytes 4 (uint32 0).

(** Modelled from the spec: [mack.File] is declared outside the sources;
    the code reads its source path [Src] and its archived name, the
    result of [f.String()]. *)
Record File : Type := { Src : list byte; Archived : list byte }.

Definition File_String (f : File) : list byte := Archived f.

(** [tape.Header], with the fields that [writeFile] sets. *)
Record tape_Header : Type := {
  Filename : list byte;
  h_Mode : Z;
  h_Length : Z;
  h_ModTime : ar.Time
}.

(** A file as [os.Open] and [Stat] show it. *)
Record os_File : Type := {
  f_Mode : Z;
  f_Size : Z;
  f_ModTime : ar.Time;
  f_data : list byte
}.

(** The result of [hash.Sum(nil)]: a slice of the size of the hash. *)
Record digest (n : nat) : Type := {
  dbytes : list byte;
  dsize : length dbytes = n
}.

(** [fmt.Sprintf("%x", bs)]: two hexadecimal digits per byte. *)
Definition hex (bs : list byte) : list byte :=
  flat_map (fun b => [strconv.digit_char (b2z b / 16);
                      strconv.digit_char (b2z b mod 16)]) bs.

(** The buffer of 32 KiB of [io.Copy]: the chunks a file is read in. A
    regular file is read without error, each read filling the buffer
    until the file ends. *)
Definition copy_buffer : nat := Z.to_nat (32 * 1024).

Fixpoint chunks_aux (fuel : nat) (data : list byte) : list (list byte) :=
  match data with
  | [] => []
  | _ =>
      match fuel with
      | O => [data]
      | S k => firstn copy_buffer data :: chunks_aux k (skipn copy_buffer data)
      end
  end.

Definition chunks (data : list byte) : list (list byte) :=
  chunks_aux (length data) data.

(** The accumulators of the [builder]; [inner] is the sink, the bytes
    written so far. *)
Record builder : Type := {
  inner : list byte;
  md5sums : list (list byte);
  filenames : list (list byte);
  sizes : list Z
}.

Section Build.

(** The collaborators: [crypto/md5], [crypto/sha1], [compress/gzip], the
    cpio writer of [github.com/midbel/tape] and the file system. *)
Variable md5_Sum : list byte -> digest 16.
Variable sha1_Sum : list byte -> digest 20.

(** A [gzip.Writer] at [gzip.BestCompression], after one [Write(p)]:
    [gzip_written p] has reached the sink (the header and the blocks the
    compressor let go), [gzip_pending p] is what the compressor would
    still emit on [Close], final block included. [Close] then appends the
    trailer: CRC-32 and size, 4 bytes each, least significant first. *)
Variable gzip_written : list byte -> list byte.
Variable gzip_pending : list byte -> list byte.
Variable crc32 : list byte -> Z.

Definition gzip_trailer (p : list byte) : list byte :=
  le_bytes 4 (crc32 p) ++ le_bytes 4 (len p).

(** The complete gzip stream of [p]: what the sink holds after [Close]. *)
Definition gzip_complete (p : list byte) : list byte :=
  gzip_written p ++ gzip_pending p ++ gzip_trailer p.

(** The cpio writer over a buffer: [cpio_bytes] is the buffer. *)
Variable cpio_Writer : Type.
Variable cpio_NewWriter : cpio_Writer.
Variable cpio_WriteHeader : cpio_Writer -> tape_Header -> cpio_Writer * option error.
Variable cpio_Write : cpio_Writer -> list byte -> cpio_Writer * Z * option error.
Variable cpio_Close : cpio_Writer -> cpio_Writer * option error.
Variable cpio_bytes : cpio_Writer -> list byte.

(** [os.Open]. *)
Variable os_Open : list byte -> os_File + error.

(** [io.Copy(w, io.TeeReader(r, s))] on the chunks of the file: each
    chunk goes to the hash, then to the cpio writer. *)
Fixpoint copy_chunks (ark : cpio_Writer) (cs : list (list byte))
  : cpio_Writer * option error :=
  match cs with
  | [] => (ark, None)
  | c :: rest =>
      let '(ark', n, e) := cpio_Write ark c in
      match e with
      | Some err => (ark', Some err)
      | None =>
          if n =? len c then copy_chunks ark' rest
          else (ark', Some ErrShortWrite)
      end
  end.

(** [writeFile(w, f)]: the digest returned, the error and the writer. *)
Definition writeFile (ark : cpio_Writer) (f : File)
  : list byte * option error * cpio_Writer :=
  match os_Open (Src f) with
  | inr err => ([], Some err, ark)
  | inl i =>
      let h := {| Filename := File_String f; h_Mode := int64 (f_Mode i);
                  h_Length := f_Size i; h_ModTime := f_ModTime i |} in
      let '(ark1, e) := cpio_WriteHeader ark h in
      match e with
      | Some err => ([], Some err, ark1)
      | None =>
          let '(ark2, e) := copy_chunks ark1 (chunks (f_data i)) in
          match e with
          | Some err => ([], Some err, ark2)
          | None => (dbytes (md5_Sum (f_data i)), None, ark2)
          end
      end
  end.

(** The loop of [writeArchive]. *)
Fixpoint archive_loop (ark : cpio_Writer) (w : builder) (files : list File)
  : cpio_Writer * builder * option error :=
  match files with
  | [] => (ark, w, None)
  | f :: rest =>
      let '(bs, e, ark') := writeFile ark f in
      match e with
      | Some err => (ark', w, Some err)
      | None =>
          archive_loop ark'
            {| inner := inner w;
               md5sums := md5sums w ++ [hex bs];
               filenames := filenames w ++ [File_String f];
               sizes := sizes w ++ [int64 (len bs)] |}
            rest
      end
  end.

(** The bytes of the archive once the cpio writer is closed. *)
Definition archive (w : builder) (files : list File)
  : option (list byte) * option error * builder :=
  let '(ark, w', e) := archive_loop cpio_NewWriter w files in
  match e with
  | Some err => (None, Some err, w')
  | None =>
      let '(ark', e) := cpio_Close ark in
      match e with
      | Some err => (None, Some err, w')
      | None => (Some (cpio_bytes ark'), None, w')
      end
  end.

(** The second half of [writeArchive]: [io.Copy(gz, body)] is one
    [Write] of the whole buffer, none for an empty buffer; the writer [gz]
    is neither flushed nor closed before [bz] is returned. *)
Definition compress (body : list byte) : list byte :=
  match body with
  | [] => []
  | _ => gzip_written body
  end.

Definition writeArchive (w : builder) (files : list File)
  : option (list byte) * option error * builder :=
  let '(body, e, w') := archive w files in
  match body with
  | Some b => (Some (compress b), None, w')
  | None => (None, e, w')
  end.

(** The fields of the signature, from the bytes [data] that follow it. *)
Definition signature_fields (data : list byte) : list Field :=
  [ number SigLength (int32 (code Int32)) (int64 (len data));
    binarray SigMD5 (dbytes (md5_Sum data));
    binarray SigSha1 (dbytes (sha1_Sum data)) ].

(** [builder.Build]: the error returned and the builder. *)
Definition Build (w : builder) (c : Control) (files : list File)
  : option error * builder :=
  let e := {| Major := MajorRPM; Minor := MinorRPM; Type_l := 0; Arch := 0;
              Name := Package c; Os := 0; SigType := SigTypeRPM |} in
  let w := {| inner := inner w ++ writeLead e; md5sums := md5sums w;
              filenames := filenames w; sizes := sizes w |} in
  let meta := writeMetadata c in
  let '(body, err, w) := writeArchive w files in
  match body with
  | None => (err, w)
  | Some body =>
      let data := meta ++ body in
      let sig := writeFields (signature_fields data) true in
      (None, {| inner := inner w ++ sig ++ data; md5sums := md5sums w;
                filenames := filenames w; sizes := sizes w |})
  end.

End Build.

End rpm.

(** ** Facts on the tag header *)

(** The fields that [writeFields] retains. *)
Definition kept (fs : list rpm.Field) : list rpm.Field :=
  filter (fun f => negb (rpm.Skip f)) fs.

(** The sum of the serialized lengths of the fields. *)
Definition store_len (fs : list rpm.Field) : Z :=
  fold_right (fun f a => len (rpm.Bytes f) + a) 0 fs.

(** The index entry of [f] when the store holds [off] bytes. *)
Definition entry (off : Z) (f : rpm.Field) : list byte :=
  be_bytes 4 (rpm.Tag f) ++ be_bytes 4 (rpm.Type_ f) ++
  be_bytes 4 (int32 off) ++ be_bytes 4 (rpm.Len f).

Fixpoint index_from (off : Z) (fs : list rpm.Field) : list (list byte) :=
  match fs with
  | [] => []
  | f :: rest => entry off f :: index_from (off + len (rpm.Bytes f)) rest
  end.

Fixpoint count_from (c : Z) (fs : list rpm.Field) : Z :=
  match fs with
  | [] => c
  | _ :: rest => count_from (int32 (c + 1)) rest
  end.

(** The block before padding, from the retained fields. *)
Definition block (ks : list rpm.Field) : list byte :=
  be_bytes 4 (uint32 (Z.lor (Z.shiftl rpm.MagicHDR 8) 1)) ++
  be_bytes 4 (uint32 0) ++
  be_bytes 4 (count_from 0 ks) ++
  be_bytes 4 (int32 (len (flat_map rpm.Bytes ks))) ++
  concat (index_from 0 ks) ++ flat_map rpm.Bytes ks.

Definition padding (meta : list byte) (pad : bool) : list byte :=
  if negb (len meta mod 8 =? 0) && pad
  then repeat x00 (Z.to_nat (8 - len meta mod 8))
  else [].

Lemma fold_step (fs : list rpm.Field) :
  forall st,
    fold_left rpm.step fs st =
    {| rpm.cnt := count_from (rpm.cnt st) (kept fs);
       rpm.body := rpm.body st ++ concat (index_from (len (rpm.store st)) (kept fs));
       rpm.store := rpm.store st ++ flat_map rpm.Bytes (kept fs) |}.
Proof.
  induction fs as [|f fs IH]; intros [c b s].
  - simpl. rewrite !app_nil_r. reflexivity.
  - cbn [fold_left kept filter]. unfold rpm.step at 2.
    destruct (rpm.Skip f) eqn:E; cbn [negb].
    + apply IH.
    + rewrite IH. cbn [rpm.cnt rpm.body rpm.store count_from index_from
                       concat flat_map].
      fold (kept fs). rewrite len_app, <- !app_assoc. reflexivity.
Qed.

Lemma writeFields_block (fs : list rpm.Field) (pad : bool) :
  rpm.writeFields fs pad = block (kept fs) ++ padding (block (kept fs)) pad.
Proof.
  unfold rpm.writeFields. rewrite fold_step.
  cbn [rpm.cnt rpm.body rpm.store app].
  change (len (@nil byte)) with 0.
  fold (block (kept fs)). unfold padding.
  destruct (negb (len (block (kept fs)) mod 8 =? 0) && pad);
    [reflexivity | symmetry; apply app_nil_r].
Qed.

Lemma store_len_flat (ks : list rpm.Field) :
  len (flat_map rpm.Bytes ks) = store_len ks.
Proof.
  induction ks as [|f ks IH]; [reflexivity|].
  cbn [flat_map store_len fold_right]. rewrite len_app, IH. reflexivity.
Qed.

Lemma store_len_nonneg (ks : list rpm.Field) : 0 <= store_len ks.
Proof.
  induction ks as [|f ks IH]; simpl; [lia|].
  pose proof (len_nonneg (rpm.Bytes f)). lia.
Qed.

Lemma store_len_firstn (k : nat) (ks : list rpm.Field) :
  store_len (firstn k ks) <= store_len ks.
Proof.
  revert k. induction ks as [|f ks IH]; intros [|k]; simpl; try lia.
  - pose proof (store_len_nonneg ks). pose proof (len_nonneg (rpm.Bytes f)). lia.
  - specialize (IH k). lia.
Qed.

Lemma entry_length (off : Z) (f : rpm.Field) : length (entry off f) = 16%nat.
Proof.
  unfold entry. rewrite !length_app, !be_bytes_length. reflexivity.
Qed.

Lemma skipn_len {A : Type} (n : nat) (l r : list A) :
  length l = n -> skipn n (l ++ r) = r.
Proof.
  intros <-. apply skipn_exact.
Qed.

Lemma firstn_len {A : Type} (n : nat) (l r : list A) :
  length l = n -> firstn n (l ++ r) = l.
Proof.
  intros <-. apply firstn_exact.
Qed.

(** Skipping [k] entries of the index. *)
Lemma skipn_index (k : nat) :
  forall (ks : list rpm.Field) (off : Z) (f : rpm.Field) (rest : list byte),
    nth_error ks k = Some f ->
    exists more,
      skipn (16 * k) (concat (index_from off ks) ++ rest) =
      entry (off + store_len (firstn k ks)) f ++ more.
Proof.
  induction k as [|k IH]; intros ks off f rest Hk.
  - destruct ks as [|g ks]; [discriminate|]. injection Hk as ->.
    cbn [index_from concat firstn store_len fold_right Nat.mul skipn].
    rewrite Z.add_0_r, <- app_assoc. eexists. reflexivity.
  - destruct ks as [|g ks]; [discriminate|]. cbn [nth_error] in Hk.
    destruct (IH ks (off + len (rpm.Bytes g)) f rest Hk) as [more Hm].
    exists more.
    replace (16 * S k)%nat with (16 * k + 16)%nat by lia.
    rewrite <- skipn_skipn.
    cbn [index_from concat]. rewrite <- app_assoc.
    rewrite (@skipn_len _ _ _ _ (entry_length off g)), Hm.
    cbn [firstn store_len fold_right]. rewrite Z.add_assoc. reflexivity.
Qed.

Lemma be_decode_small (v : Z) :
  0 <= v < 2 ^ 32 -> be_decode (be_bytes 4 v) = v.
Proof.
  intros H. rewrite be_decode_be_bytes.
  change (256 ^ Z.of_nat 4) with (2 ^ 32). apply Z.mod_small. exact H.
Qed.

Lemma int32_small (v : Z) : - 2 ^ 31 <= v < 2 ^ 31 -> int32 v = v.
Proof.
  intros H. unfold int32, swrap.
  change (2 ^ (32 - 1)) with 2147483648 in *. change (2 ^ 32) with 4294967296.
  change (2 ^ 31) with 2147483648 in H.
  rewrite Z.mod_small by lia. lia.
Qed.

(** C9. When the retained fields serialize to fewer than 2^31 bytes, the
    store length that [writeFields] declares (bytes 12 to 15 of the block)
    is the sum of their serialized lengths, and the index entry of the
    [k]-th retained field holds its tag, its type, the sum of the
    serialized lengths of the retained fields before it as offset, and
    its count. *)
Theorem writeFields_offsets (fs : list rpm.Field) (pad : bool) :
  store_len (kept fs) < 2 ^ 31 ->
  let out := rpm.writeFields fs pad in
  be_decode (firstn 4 (skipn 12 out)) = store_len (kept fs) /\
  forall (k : nat) (f : rpm.Field),
    nth_error (kept fs) k = Some f ->
    firstn 16 (skipn (16 + 16 * k) out) =
      be_bytes 4 (rpm.Tag f) ++ be_bytes 4 (rpm.Type_ f) ++
      be_bytes 4 (store_len (firstn k (kept fs))) ++ be_bytes 4 (rpm.Len f) /\
    be_decode (firstn 4 (skipn (16 + 16 * k + 8) out)) =
      store_len (firstn k (kept fs)).
Proof.
  intros Hlt out. unfold out. rewrite writeFields_block.
  set (ks := kept fs) in *.
  pose proof (store_len_nonneg ks) as Hnn.
  change (2 ^ 31) with 2147483648 in Hlt.
  set (pd := padding (block ks) pad).
  unfold block. rewrite store_len_flat.
  rewrite (int32_small (v := store_len ks))
    by (change (2 ^ 31) with 2147483648; lia).
  set (P := be_bytes 4 (uint32 (Z.lor (Z.shiftl rpm.MagicHDR 8) 1))).
  set (Z0 := be_bytes 4 (uint32 0)).
  set (C := be_bytes 4 (count_from 0 ks)).
  set (S0 := be_bytes 4 (store_len ks)).
  set (tl := flat_map rpm.Bytes ks ++ pd).
  assert (HP : length (P ++ Z0 ++ C) = 12%nat)
    by (rewrite !length_app; unfold P, Z0, C; rewrite !be_bytes_length; reflexivity).
  assert (HS : length S0 = 4%nat) by apply be_bytes_length.
  assert (Hout : (P ++ Z0 ++ C ++ S0 ++ concat (index_from 0 ks) ++
                  flat_map rpm.Bytes ks) ++ pd
                 = (P ++ Z0 ++ C) ++ S0 ++ concat (index_from 0 ks) ++ tl).
  { unfold tl. rewrite <- !app_assoc. reflexivity. }
  rewrite Hout. split.
  - rewrite (@skipn_len _ _ _ _ HP), (@firstn_len _ _ _ _ HS).
    apply be_decode_small. change (2 ^ 32) with 4294967296. lia.
  - intros k f Hk.
    assert (H16 : length ((P ++ Z0 ++ C) ++ S0) = 16%nat)
      by (rewrite length_app, HP, HS; reflexivity).
    destruct (skipn_index k ks 0 tl Hk) as [more Hm].
    pose proof (store_len_firstn k ks) as Hle.
    pose proof (store_len_nonneg (firstn k ks)) as Hk0.
    rewrite Z.add_0_l in Hm. unfold entry in Hm.
    rewrite (int32_small (v := store_len (firstn k ks))) in Hm
      by (change (2 ^ 31) with 2147483648; lia).
    replace (16 + 16 * k + 8)%nat with (8 + (16 * k + 16))%nat by lia.
    replace (16 + 16 * k)%nat with (16 * k + 16)%nat by lia.
    rewrite <- !skipn_skipn.
    rewrite (app_assoc (P ++ Z0 ++ C) S0), (@skipn_len _ _ _ _ H16), Hm.
    split.
    + rewrite !app_assoc. apply firstn_len.
      rewrite !length_app, !be_bytes_length. reflexivity.
    + rewrite (app_assoc (be_bytes 4 (rpm.Tag f))), <- app_assoc.
      rewrite skipn_len
        by (rewrite !length_app, !be_bytes_length; reflexivity).
      rewrite <- app_assoc, firstn_len by apply be_bytes_length.
      apply be_decode_small. change (2 ^ 32) with 4294967296. lia.
Qed.

(** ** Facts on the builder *)

(** Reading a block back: the 32-bit word at a byte offset, the index
    entry [k] (tag, type, offset, count) and the bytes of the store that an
    entry designates. *)
Definition word (blk : list byte) (i : nat) : Z :=
  be_decode (firstn 4 (skipn i blk)).

Definition entry_at (blk : list byte) (k : nat) : Z * Z * Z * Z :=
  (word blk (16 + 16 * k), word blk (16 + 16 * k + 4),
   word blk (16 + 16 * k + 8), word blk (16 + 16 * k + 12)).

Definition store_of (blk : list byte) : list byte :=
  skipn (16 + 16 * Z.to_nat (word blk 8)) blk.

Definition field_at (blk : list byte) (k n : nat) : list byte :=
  firstn n (skipn (Z.to_nat (word blk (16 + 16 * k + 8))) (store_of blk)).

Lemma digest_len (n : nat) (d : rpm.digest n) : len (rpm.dbytes d) = Z.of_nat n.
Proof.
  unfold len. rewrite (rpm.dsize d). reflexivity.
Qed.

Lemma swrap_congr (w z : Z) : 0 < w -> exists k, swrap w z = z + k * 2 ^ w.
Proof.
  intros Hw. unfold swrap.
  assert (Hp : 0 < 2 ^ w) by (apply Z.pow_pos_nonneg; lia).
  exists (- ((z + 2 ^ (w - 1)) / 2 ^ w)).
  pose proof (Z.div_mod (z + 2 ^ (w - 1)) (2 ^ w) ltac:(lia)). lia.
Qed.

(** The low 32 bits of the length survive the two conversions. *)
Lemma length_field_mod (L : Z) :
  be_decode (be_bytes 4 (int32 (int64 L))) = L mod 2 ^ 32.
Proof.
  rewrite be_decode_be_bytes. change (256 ^ Z.of_nat 4) with (2 ^ 32).
  destruct (swrap_congr (w := 32) (int64 L) ltac:(lia)) as [k Hk].
  destruct (swrap_congr (w := 64) L ltac:(lia)) as [k' Hk'].
  unfold int32, int64 in *. rewrite Hk, Hk'.
  change (2 ^ 64) with (2 ^ 32 * 2 ^ 32).
  replace (L + k' * (2 ^ 32 * 2 ^ 32) + k * 2 ^ 32)
    with (L + (k' * 2 ^ 32 + k) * 2 ^ 32) by ring.
  apply Z.mod_add. discriminate.
Qed.

Section BuildClaims.

Variable md5_Sum : list byte -> rpm.digest 16.
Variable sha1_Sum : list byte -> rpm.digest 20.
Variable gzip_written : list byte -> list byte.
Variable gzip_pending : list byte -> list byte.
Variable crc32 : list byte -> Z.
Variable cpio_Writer : Type.
Variable cpio_NewWriter : cpio_Writer.
Variable cpio_WriteHeader :
  cpio_Writer -> rpm.tape_Header -> cpio_Writer * option error.
Variable cpio_Write : cpio_Writer -> list byte -> cpio_Writer * Z * option error.
Variable cpio_Close : cpio_Writer -> cpio_Writer * option error.
Variable cpio_bytes : cpio_Writer -> list byte.
Variable os_Open : list byte -> rpm.os_File + error.

Local Abbreviation writeFile :=
  (rpm.writeFile md5_Sum cpio_WriteHeader cpio_Write os_Open).
Local Abbreviation archive_loop :=
  (rpm.archive_loop md5_Sum cpio_WriteHeader cpio_Write os_Open).
Local Abbreviation archive :=
  (rpm.archive md5_Sum cpio_NewWriter cpio_WriteHeader cpio_Write cpio_Close
     cpio_bytes os_Open).
Local Abbreviation writeArchive :=
  (rpm.writeArchive md5_Sum gzip_written cpio_NewWriter cpio_WriteHeader
     cpio_Write cpio_Close cpio_bytes os_Open).
Local Abbreviation Build :=
  (rpm.Build md5_Sum sha1_Sum gzip_written cpio_NewWriter cpio_WriteHeader
     cpio_Write cpio_Close cpio_bytes os_Open).
Local Abbreviation signature_fields := (rpm.signature_fields md5_Sum sha1_Sum).
Local Abbreviation compress := (rpm.compress gzip_written).
Local Abbreviation gzip_complete :=
  (rpm.gzip_complete gzip_written gzip_pending crc32).

(** The digest that the accumulator records for a file. *)
Definition file_digest (f : rpm.File) : list byte :=
  match os_Open (rpm.Src f) with
  | inl i => rpm.hex (rpm.dbytes (md5_Sum (rpm.f_data i)))
  | inr _ => []
  end.

Lemma writeFile_success (ark ark' : cpio_Writer) (f : rpm.File) (bs : list byte) :
  writeFile ark f = (bs, None, ark') ->
  exists i, os_Open (rpm.Src f) = inl i /\
            bs = rpm.dbytes (md5_Sum (rpm.f_data i)).
Proof.
  unfold rpm.writeFile. destruct (os_Open (rpm.Src f)) as [i | err].
  - destruct (cpio_WriteHeader _ _) as [ark1 [e1|]]; [discriminate|].
    destruct (rpm.copy_chunks _ _ _) as [ark2 [e2|]]; [discriminate|].
    intros H. injection H as <- _. exists i. split; reflexivity.
  - discriminate.
Qed.

Lemma archive_loop_success (files : list rpm.File) :
  forall (ark ark' : cpio_Writer) (w w' : rpm.builder),
    archive_loop ark w files = (ark', w', None) ->
    rpm.inner w' = rpm.inner w /\
    rpm.sizes w' = rpm.sizes w ++ map (fun _ => 16) files /\
    rpm.filenames w' = rpm.filenames w ++ map rpm.File_String files /\
    rpm.md5sums w' = rpm.md5sums w ++ map file_digest files.
Proof.
  induction files as [|f files IH]; intros ark ark' w w' H.
  - injection H as _ <-. cbn [map]. rewrite !app_nil_r. repeat split.
  - cbn [rpm.archive_loop] in H.
    destruct (writeFile ark f) as [[bs [e|]] ark1] eqn:E; [discriminate|].
    destruct (writeFile_success _ _ E) as (i & Hopen & ->).
    apply IH in H. cbn [rpm.inner rpm.sizes rpm.filenames rpm.md5sums] in H.
    destruct H as (Hi & Hs & Hf & Hm).
    rewrite Hi, Hs, Hf, Hm, <- !app_assoc. cbn [map app].
    rewrite digest_len. unfold file_digest. rewrite Hopen.
    repeat split.
Qed.

Lemma archive_cases (w : rpm.builder) (files : list rpm.File) :
  (exists body w', archive w files = (Some body, None, w')) \/
  (exists err w', archive w files = (None, Some err, w')).
Proof.
  unfold rpm.archive.
  destruct (archive_loop cpio_NewWriter w files) as [[ark w'] [e|]].
  - right. eexists _, _. reflexivity.
  - destruct (cpio_Close ark) as [ark' [e|]].
    + right. eexists _, _. reflexivity.
    + left. eexists _, _. reflexivity.
Qed.

Lemma archive_success (w w' : rpm.builder) (files : list rpm.File)
      (body : list byte) (e : option error) :
  archive w files = (Some body, e, w') ->
  rpm.inner w' = rpm.inner w /\
  rpm.sizes w' = rpm.sizes w ++ map (fun _ => 16) files /\
  rpm.filenames w' = rpm.filenames w ++ map rpm.File_String files /\
  rpm.md5sums w' = rpm.md5sums w ++ map file_digest files.
Proof.
  unfold rpm.archive.
  destruct (archive_loop cpio_NewWriter w files) as [[ark w1] [e1|]] eqn:E;
    [discriminate|].
  destruct (cpio_Close ark) as [ark' [e2|]]; [discriminate|].
  intros H. injection H as _ _ <-. eapply archive_loop_success. exact E.
Qed.

Lemma writeArchive_success (w w' : rpm.builder) (files : list rpm.File)
      (payload : list byte) (e : option error) :
  writeArchive w files = (Some payload, e, w') ->
  exists body, archive w files = (Some body, None, w') /\
               payload = compress body /\ e = None.
Proof.
  unfold rpm.writeArchive.
  destruct (archive_cases w files) as [(body & w1 & H) | (err & w1 & H)];
    rewrite H.
  - intros E. injection E as <- <- <-. exists body. repeat split.
  - discriminate.
Qed.

Lemma writeArchive_failure (w w' : rpm.builder) (files : list rpm.File)
      (e : option error) :
  writeArchive w files = (None, e, w') -> e <> None.
Proof.
  unfold rpm.writeArchive.
  destruct (archive_cases w files) as [(body & w1 & H) | (err & w1 & H)];
    rewrite H.
  - discriminate.
  - intros E. injection E as <- _. discriminate.
Qed.

(** The lead that [Build] writes for a control file. *)
Definition lead_of (c : rpm.Control) : rpm.Lead :=
  {| rpm.Major := rpm.MajorRPM; rpm.Minor := rpm.MinorRPM; rpm.Type_l := 0;
     rpm.Arch := 0; rpm.Name := rpm.Package c; rpm.Os := 0;
     rpm.SigType := rpm.SigTypeRPM |}.

(** The builder once the lead is written. *)
Definition with_lead (w : rpm.builder) (c : rpm.Control) : rpm.builder :=
  {| rpm.inner := rpm.inner w ++ rpm.writeLead (lead_of c);
     rpm.md5sums := rpm.md5sums w; rpm.filenames := rpm.filenames w;
     rpm.sizes := rpm.sizes w |}.

(** A build that returns no error has written the lead, the signature of
    [data], and [data]: the metadata block then what [writeArchive]
    returned. *)
Lemma Build_success (w w' : rpm.builder) (c : rpm.Control)
      (files : list rpm.File) :
  Build w c files = (None, w') ->
  exists payload w1,
    writeArchive (with_lead w c) files = (Some payload, None, w1) /\
    rpm.inner w' =
      rpm.inner w ++ rpm.writeLead (lead_of c) ++
      rpm.writeFields (signature_fields (rpm.writeMetadata c ++ payload)) true ++
      rpm.writeMetadata c ++ payload.
Proof.
  unfold rpm.Build. fold (lead_of c). fold (with_lead w c).
  destruct (writeArchive (with_lead w c) files) as [[[payload|] e] w1] eqn:E.
  - destruct (writeArchive_success _ _ E) as (body & Ha & Hp & ->).
    destruct (archive_success _ _ Ha) as (Hi & _).
    intros H. apply (f_equal snd) in H. cbv beta iota delta [snd] in H.
    subst w'. exists payload, w1. split; [reflexivity|].
    match goal with
    | |- rpm.inner {| rpm.inner := ?x; rpm.md5sums := _;
                      rpm.filenames := _; rpm.sizes := _ |} = ?y =>
        change (x = y)
    end.
    rewrite Hi.
    change (rpm.inner (with_lead w c))
      with (rpm.inner w ++ rpm.writeLead (lead_of c)).
    symmetry. apply app_assoc.
  - intros H. apply (f_equal fst) in H. cbv beta iota delta [fst] in H.
    subst e. apply writeArchive_failure in E. congruence.
Qed.

(** The 64 bytes before the store of a signature block: prologue, three
    entries, a store of 40 bytes, and the index. *)
Definition signature_head : list byte :=
  be_bytes 4 0x8eade801 ++ be_bytes 4 0 ++ be_bytes 4 3 ++ be_bytes 4 40 ++
  (be_bytes 4 1000 ++ be_bytes 4 4 ++ be_bytes 4 0 ++ be_bytes 4 1) ++
  (be_bytes 4 1004 ++ be_bytes 4 7 ++ be_bytes 4 4 ++ be_bytes 4 16) ++
  (be_bytes 4 269 ++ be_bytes 4 7 ++ be_bytes 4 20 ++ be_bytes 4 20).

Lemma signature_head_length : length signature_head = 64%nat.
Proof. vm_compute. reflexivity. Qed.

Lemma signature_head_len : len signature_head = 64.
Proof. vm_compute. reflexivity. Qed.

Lemma block_three (f1 f2 f3 : rpm.Field) :
  block [f1; f2; f3] =
  (be_bytes 4 (uint32 (Z.lor (Z.shiftl rpm.MagicHDR 8) 1)) ++
   be_bytes 4 (uint32 0) ++
   be_bytes 4 (count_from 0 [f1; f2; f3]) ++
   be_bytes 4 (int32 (store_len [f1; f2; f3])) ++
   entry 0 f1 ++ entry (0 + len (rpm.Bytes f1)) f2 ++
   entry (0 + len (rpm.Bytes f1) + len (rpm.Bytes f2)) f3) ++
  rpm.Bytes f1 ++ rpm.Bytes f2 ++ rpm.Bytes f3.
Proof.
  unfold block. rewrite store_len_flat.
  cbn [index_from concat flat_map].
  generalize (be_bytes 4 (uint32 (Z.lor (Z.shiftl rpm.MagicHDR 8) 1))).
  generalize (be_bytes 4 (uint32 0)).
  generalize (be_bytes 4 (count_from 0 [f1; f2; f3])).
  generalize (be_bytes 4 (int32 (store_len [f1; f2; f3]))).
  generalize (entry 0 f1).
  generalize (entry (0 + len (rpm.Bytes f1)) f2).
  generalize (entry (0 + len (rpm.Bytes f1) + len (rpm.Bytes f2)) f3).
  generalize (rpm.Bytes f1). generalize (rpm.Bytes f2).
  generalize (rpm.Bytes f3).
  intros. rewrite !app_nil_r, <- !app_assoc. reflexivity.
Qed.

Lemma len_app4 (a b c d : list byte) :
  len (a ++ b ++ c ++ d) = len a + len b + len c + len d.
Proof.
  rewrite !len_app. lia.
Qed.

Lemma signature_block (data : list byte) :
  rpm.writeFields (signature_fields data) true =
  signature_head ++ be_bytes 4 (int32 (int64 (len data))) ++
  rpm.dbytes (md5_Sum data) ++ rpm.dbytes (sha1_Sum data).
Proof.
  rewrite writeFields_block.
  assert (Hk : kept (signature_fields data) = signature_fields data).
  { unfold kept, rpm.signature_fields. cbn [filter rpm.Skip negb].
    rewrite !digest_len. reflexivity. }
  rewrite Hk.
  assert (Hb : block (signature_fields data) =
               signature_head ++ be_bytes 4 (int32 (int64 (len data))) ++
               rpm.dbytes (md5_Sum data) ++ rpm.dbytes (sha1_Sum data)).
  { unfold rpm.signature_fields. rewrite block_three.
    f_equal.
    unfold entry, store_len. cbn [fold_right rpm.Bytes rpm.Len].
    rewrite !digest_len. vm_compute. reflexivity. }
  rewrite Hb. unfold padding. rewrite len_app4, !digest_len.
  rewrite signature_head_len.
  replace (len (be_bytes 4 (int32 (int64 (len data))))) with 4
    by (unfold len; rewrite be_bytes_length; reflexivity).
  apply app_nil_r.
Qed.

Lemma word_app (h x : list byte) (i : nat) :
  (i + 4 <= length h)%nat -> word (h ++ x) i = word h i.
Proof.
  intros H. unfold word. rewrite skipn_app, firstn_app, length_skipn.
  replace (4 - (length h - i))%nat with 0%nat by lia.
  cbn [firstn]. rewrite app_nil_r. reflexivity.
Qed.

Lemma signature_head_words :
  map (word signature_head) [8; 16; 20; 24; 28; 32; 36; 40; 44; 48; 52; 56; 60]%nat
  = [3; 1000; 4; 0; 1; 1004; 7; 4; 16; 269; 7; 20; 20].
Proof. vm_compute. reflexivity. Qed.

Lemma signature_word (data : list byte) (i : nat) :
  (i + 4 <= 64)%nat ->
  word (rpm.writeFields (signature_fields data) true) i = word signature_head i.
Proof.
  intros H. rewrite signature_block. apply word_app.
  rewrite signature_head_length. exact H.
Qed.

Lemma signature_store (data : list byte) :
  store_of (rpm.writeFields (signature_fields data) true) =
  be_bytes 4 (int32 (int64 (len data))) ++
  rpm.dbytes (md5_Sum data) ++ rpm.dbytes (sha1_Sum data).
Proof.
  unfold store_of. rewrite signature_word by lia.
  replace (word signature_head 8) with 3 by (vm_compute; reflexivity).
  rewrite signature_block.
  apply skipn_len. exact signature_head_length.
Qed.

Lemma signature_entries (data : list byte) :
  let sig := rpm.writeFields (signature_fields data) true in
  entry_at sig 0 = (1000, 4, 0, 1) /\
  entry_at sig 1 = (1004, 7, 4, 16) /\
  entry_at sig 2 = (269, 7, 20, 20).
Proof.
  cbv zeta. unfold entry_at.
  rewrite !signature_word by lia.
  repeat split; vm_compute; reflexivity.
Qed.

Lemma signature_field_bytes (data : list byte) :
  let sig := rpm.writeFields (signature_fields data) true in
  field_at sig 0 4 = be_bytes 4 (int32 (int64 (len data))) /\
  field_at sig 1 16 = rpm.dbytes (md5_Sum data) /\
  field_at sig 2 20 = rpm.dbytes (sha1_Sum data).
Proof.
  cbv zeta. unfold field_at. rewrite signature_store.
  rewrite !signature_word by lia.
  replace (word signature_head (16 + 16 * 0 + 8)) with 0 by (vm_compute; reflexivity).
  replace (word signature_head (16 + 16 * 1 + 8)) with 4 by (vm_compute; reflexivity).
  replace (word signature_head (16 + 16 * 2 + 8)) with 20 by (vm_compute; reflexivity).
  generalize (be_bytes_length 4 (int32 (int64 (len data)))).
  generalize (be_bytes 4 (int32 (int64 (len data)))).
  intros lb Hlb.
  pose proof (rpm.dsize (md5_Sum data)) as Hm.
  pose proof (rpm.dsize (sha1_Sum data)) as Hs.
  repeat split.
  - change (Z.to_nat 0) with 0%nat. cbn [skipn]. apply firstn_len. exact Hlb.
  - change (Z.to_nat 4) with 4%nat. rewrite (@skipn_len _ _ _ _ Hlb).
    apply firstn_len. exact Hm.
  - change (Z.to_nat 20) with 20%nat. rewrite app_assoc.
    rewrite skipn_len by (rewrite length_app, Hlb, Hm; reflexivity).
    pose proof (firstn_all (rpm.dbytes (sha1_Sum data))) as Hf.
    rewrite Hs in Hf. exact Hf.
Qed.

(** C1, as amended. In the signature block that a successful [Build]
    writes after the lead, the three index entries carry the tags 1000
    (length), 1004 (MD5) and 269 (SHA-1, the signature base 256 plus
    13). *)
Theorem Build_signature_tags (w w' : rpm.builder) (c : rpm.Control)
        (files : list rpm.File) :
  Build w c files = (None, w') ->
  exists data,
    let sig := rpm.writeFields (signature_fields data) true in
    rpm.inner w' = rpm.inner w ++ rpm.writeLead (lead_of c) ++ sig ++ data /\
    map rpm.Tag (signature_fields data) = [1000; 1004; 269] /\
    word sig 16 = 1000 /\ word sig 32 = 1004 /\ word sig 48 = 269 /\
    rpm.SigSha1 = rpm.SigBase + 13.
Proof.
  intros H. apply Build_success in H. destruct H as (payload & w1 & _ & Hi).
  exists (rpm.writeMetadata c ++ payload). cbv zeta.
  split; [exact Hi|]. split; [reflexivity|].
  rewrite !signature_word by lia.
  repeat split; vm_compute; reflexivity.
Qed.

(** C2. In a successful [Build], the signature block is built from
    [data], the metadata block followed by the compressed payload that
    [writeArchive] returned: its length field holds the length of [data]
    (the low 32 bits of it on the wire, the length itself below 2^32), its
    MD5 and SHA-1 fields hold the digests of [data]. *)
Theorem Build_signature_digests (w w' : rpm.builder) (c : rpm.Control)
        (files : list rpm.File) :
  Build w c files = (None, w') ->
  exists body payload w1,
    archive (with_lead w c) files = (Some body, None, w1) /\
    payload = compress body /\
    let meta := rpm.writeMetadata c in
    let data := meta ++ payload in
    let sig := rpm.writeFields (signature_fields data) true in
    rpm.inner w' = rpm.inner w ++ rpm.writeLead (lead_of c) ++ sig ++ data /\
    signature_fields data =
      [ rpm.number rpm.SigLength 4 (int64 (len meta + len payload));
        rpm.binarray rpm.SigMD5 (rpm.dbytes (md5_Sum (meta ++ payload)));
        rpm.binarray rpm.SigSha1 (rpm.dbytes (sha1_Sum (meta ++ payload))) ] /\
    be_decode (field_at sig 0 4) = (len meta + len payload) mod 2 ^ 32 /\
    (len meta + len payload < 2 ^ 32 ->
     be_decode (field_at sig 0 4) = len meta + len payload) /\
    field_at sig 1 16 = rpm.dbytes (md5_Sum (meta ++ payload)) /\
    field_at sig 2 20 = rpm.dbytes (sha1_Sum (meta ++ payload)).
Proof.
  intros H. apply Build_success in H. destruct H as (payload & w1 & Hw & Hi).
  destruct (writeArchive_success _ _ Hw) as (body & Ha & Hp & _).
  exists body, payload, w1. split; [exact Ha|]. split; [exact Hp|].
  cbv zeta.
  destruct (signature_field_bytes (rpm.writeMetadata c ++ payload))
    as (F0 & F1 & F2).
  cbv zeta in F0, F1, F2.
  assert (HL : be_decode
                 (field_at (rpm.writeFields
                    (signature_fields (rpm.writeMetadata c ++ payload)) true)
                    0 4) =
               (len (rpm.writeMetadata c) + len payload) mod 2 ^ 32).
  { rewrite F0, length_field_mod, len_app. reflexivity. }
  split; [exact Hi|].
  split; [unfold rpm.signature_fields; rewrite len_app; reflexivity|].
  split; [exact HL|].
  split.
  { intros Hlt. rewrite HL. apply Z.mod_small.
    pose proof (len_nonneg (rpm.writeMetadata c)).
    pose proof (len_nonneg payload). lia. }
  split; [exact F1 | exact F2].
Qed.

Lemma gzip_trailer_len (p : list byte) : len (rpm.gzip_trailer crc32 p) = 8.
Proof.
  unfold rpm.gzip_trailer, le_bytes, len.
  rewrite length_app, !length_rev, !be_bytes_length. reflexivity.
Qed.

(** C3, what the code does. The payload that [writeArchive] returns is
    what the gzip writer has let go after one [Write] of the archive
    (nothing at all for an empty archive): the writer is never closed, so
    the complete gzip stream of the archive continues with at least the 8
    bytes of the trailer, and the payload is not that stream. *)
Theorem writeArchive_not_closed (w w' : rpm.builder) (files : list rpm.File)
        (payload : list byte) :
  writeArchive w files = (Some payload, None, w') ->
  exists body more,
    archive w files = (Some body, None, w') /\
    payload = compress body /\
    gzip_complete body = payload ++ more /\
    8 <= len more /\
    payload <> gzip_complete body.
Proof.
  intros H. destruct (writeArchive_success _ _ H) as (body & Ha & Hp & _).
  assert (Hmore : exists more,
             gzip_complete body = payload ++ more /\ 8 <= len more).
  { subst payload. unfold rpm.compress, rpm.gzip_complete.
    destruct body as [|b body].
    - exists (gzip_written [] ++ gzip_pending [] ++ rpm.gzip_trailer crc32 []).
      split; [reflexivity|].
      rewrite len_app, len_app, gzip_trailer_len.
      pose proof (len_nonneg (gzip_written [])).
      pose proof (len_nonneg (gzip_pending [])). lia.
    - exists (gzip_pending (b :: body) ++ rpm.gzip_trailer crc32 (b :: body)).
      split; [reflexivity|].
      rewrite len_app, gzip_trailer_len.
      pose proof (len_nonneg (gzip_pending (b :: body))). lia. }
  destruct Hmore as (more & Hc & Hl).
  exists body, more. repeat split; try assumption.
  intros Heq. rewrite Hc in Heq.
  apply (f_equal (@len byte)) in Heq. rewrite len_app in Heq. lia.
Qed.

(** C8, what the code does. After a successful [writeArchive] the
    accumulator holds, for every file, the hexadecimal MD5 digest of its
    content and its archived name, and as its size the number 16: the
    length of the digest, whatever the size of the file. *)
Theorem writeArchive_sizes (w w' : rpm.builder) (files : list rpm.File)
        (payload : list byte) :
  writeArchive w files = (Some payload, None, w') ->
  rpm.sizes w' = rpm.sizes w ++ map (fun _ => 16) files /\
  rpm.filenames w' = rpm.filenames w ++ map rpm.File_String files /\
  rpm.md5sums w' = rpm.md5sums w ++ map file_digest files.
Proof.
  intros H. destruct (writeArchive_success _ _ H) as (body & Ha & _).
  destruct (archive_success _ _ Ha) as (_ & Hs & Hf & Hm).
  repeat split; assumption.
Qed.

End BuildClaims.

(** ** The claims on package rpm at concrete inputs

    Stand-ins for the collaborators: digests that hold the length of
    their input, a gzip writer that lets only its header go before
    [Close], a cpio writer that concatenates names and contents, and a
    file system with one file of ten bytes. *)

Definition demo_md5 (d : list byte) : rpm.digest 16 :=
  {| rpm.dbytes := z2b (len d) :: repeat x00 15; rpm.dsize := eq_refl |}.

Definition demo_sha1 (d : list byte) : rpm.digest 20 :=
  {| rpm.dbytes := z2b (len d) :: repeat x01 19; rpm.dsize := eq_refl |}.

Definition demo_gzip_written (p : list byte) : list byte :=
  [x1f; x8b; x08; x00; x00; x00; x00; x00; x02; xff].

Definition demo_gzip_pending (p : list byte) : list byte := p.

Definition demo_crc32 (p : list byte) : Z := 0.

Definition demo_cpio_WriteHeader (w : list byte) (h : rpm.tape_Header)
  : list byte * option error :=
  (w ++ rpm.Filename h ++ [x00], None).

Definition demo_cpio_Write (w bs : list byte) : list byte * Z * option error :=
  (w ++ bs, len bs, None).

Definition demo_cpio_Close (w : list byte) : list byte * option error :=
  (w ++ str "TRAILER!!!", None).

Definition demo_os_Open (p : list byte) : rpm.os_File + error :=
  if ar.Equal p (str "hello.txt") then
    inl {| rpm.f_Mode := 420; rpm.f_Size := 10;
           rpm.f_ModTime := ar.time_Unix 1500000000 0;
           rpm.f_data := str "0123456789" |}
  else inr ErrNotExist.

Definition demo_control : rpm.Control :=
  {| rpm.Package := str "demo"; rpm.Version := str "1.0"; rpm.Summary := [];
     rpm.Desc := []; rpm.Vendor := []; rpm.License := []; rpm.Home := [] |}.

Definition demo_files : list rpm.File :=
  [ {| rpm.Src := str "hello.txt"; rpm.Archived := str "usr/share/hello.txt" |} ].

Definition empty_builder : rpm.builder :=
  {| rpm.inner := []; rpm.md5sums := []; rpm.filenames := []; rpm.sizes := [] |}.

Definition demo_Build : option error * rpm.builder :=
  rpm.Build demo_md5 demo_sha1 demo_gzip_written [] demo_cpio_WriteHeader
    demo_cpio_Write demo_cpio_Close (fun w => w) demo_os_Open
    empty_builder demo_control demo_files.

Definition demo_writeArchive : option (list byte) * option error * rpm.builder :=
  rpm.writeArchive demo_md5 demo_gzip_written [] demo_cpio_WriteHeader
    demo_cpio_Write demo_cpio_Close (fun w => w) demo_os_Open
    empty_builder demo_files.

Lemma demo_Build_ok : demo_Build = (None, snd demo_Build).
Proof. vm_compute. reflexivity. Qed.

Lemma demo_writeArchive_ok :
  demo_writeArchive = (Some (demo_gzip_written []), None, snd demo_writeArchive).
Proof. vm_compute. reflexivity. Qed.

Lemma Build_signature_tags_witness :
  exists data,
    let sig := rpm.writeFields (rpm.signature_fields demo_md5 demo_sha1 data) true in
    rpm.inner (snd demo_Build) =
      rpm.inner empty_builder ++ rpm.writeLead (lead_of demo_control) ++ sig ++ data /\
    map rpm.Tag (rpm.signature_fields demo_md5 demo_sha1 data) = [1000; 1004; 269] /\
    word sig 16 = 1000 /\ word sig 32 = 1004 /\ word sig 48 = 269 /\
    rpm.SigSha1 = rpm.SigBase + 13.
Proof.
  apply (@Build_signature_tags demo_md5 demo_sha1 demo_gzip_written _ []
           demo_cpio_WriteHeader demo_cpio_Write demo_cpio_Close (fun w => w)
           demo_os_Open empty_builder (snd demo_Build) demo_control demo_files).
  vm_compute. reflexivity.
Defined.

(** The tags of the signature fields are not 1000, 1004 and 1013. *)
Lemma signature_tags_counterexample :
  map rpm.Tag (rpm.signature_fields demo_md5 demo_sha1 (str "0123456789"))
  <> [1000; 1004; 1013].
Proof.
  vm_compute. discriminate.
Qed.

Lemma Build_signature_digests_witness :
  exists body payload w1,
    rpm.archive demo_md5 [] demo_cpio_WriteHeader demo_cpio_Write
      demo_cpio_Close (fun w => w) demo_os_Open
      (with_lead empty_builder demo_control) demo_files = (Some body, None, w1) /\
    payload = rpm.compress demo_gzip_written body /\
    let meta := rpm.writeMetadata demo_control in
    let data := meta ++ payload in
    let sig := rpm.writeFields (rpm.signature_fields demo_md5 demo_sha1 data) true in
    rpm.inner (snd demo_Build) =
      rpm.inner empty_builder ++ rpm.writeLead (lead_of demo_control) ++ sig ++ data /\
    rpm.signature_fields demo_md5 demo_sha1 data =
      [ rpm.number rpm.SigLength 4 (int64 (len meta + len payload));
        rpm.binarray rpm.SigMD5 (rpm.dbytes (demo_md5 (meta ++ payload)));
        rpm.binarray rpm.SigSha1 (rpm.dbytes (demo_sha1 (meta ++ payload))) ] /\
    be_decode (field_at sig 0 4) = (len meta + len payload) mod 2 ^ 32 /\
    (len meta + len payload < 2 ^ 32 ->
     be_decode (field_at sig 0 4) = len meta + len payload) /\
    field_at sig 1 16 = rpm.dbytes (demo_md5 (meta ++ payload)) /\
    field_at sig 2 20 = rpm.dbytes (demo_sha1 (meta ++ payload)).
Proof.
  apply (@Build_signature_digests demo_md5 demo_sha1 demo_gzip_written _ []
           demo_cpio_WriteHeader demo_cpio_Write demo_cpio_Close (fun w => w)
           demo_os_Open empty_builder (snd demo_Build) demo_control demo_files).
  vm_compute. reflexivity.
Defined.

(** The demo build on the wire: the signature declares the 67 bytes that
    follow it (57 of metadata and the 10 bytes that the gzip writer let
    go) and the digests of those 67 bytes. *)
Example demo_Build_signature :
  let meta := rpm.writeMetadata demo_control in
  let out := rpm.inner (snd demo_Build) in
  let sig := firstn 104 (skipn 96 out) in
  let data := skipn 200 out in
  len meta = 57 /\ len out = 96 + 104 + 67 /\
  data = meta ++ demo_gzip_written [] /\
  be_decode (field_at sig 0 4) = 67 /\
  field_at sig 1 16 = rpm.dbytes (demo_md5 data) /\
  field_at sig 2 20 = rpm.dbytes (demo_sha1 data).
Proof. vm_compute. repeat split. Qed.

Lemma writeArchive_not_closed_witness :
  exists body more,
    rpm.archive demo_md5 [] demo_cpio_WriteHeader demo_cpio_Write
      demo_cpio_Close (fun w => w) demo_os_Open empty_builder demo_files
    = (Some body, None, snd demo_writeArchive) /\
    demo_gzip_written [] = rpm.compress demo_gzip_written body /\
    rpm.gzip_complete demo_gzip_written demo_gzip_pending demo_crc32 body =
      demo_gzip_written [] ++ more /\
    8 <= len more /\
    demo_gzip_written [] <>
      rpm.gzip_complete demo_gzip_written demo_gzip_pending demo_crc32 body.
Proof.
  apply (@writeArchive_not_closed demo_md5 demo_gzip_written demo_gzip_pending
           demo_crc32 _ [] demo_cpio_WriteHeader demo_cpio_Write
           demo_cpio_Close (fun w => w) demo_os_Open empty_builder
           (snd demo_writeArchive) demo_files (demo_gzip_written [])).
  vm_compute. reflexivity.
Defined.

Lemma writeArchive_sizes_witness :
  rpm.sizes (snd demo_writeArchive) =
    rpm.sizes empty_builder ++ map (fun _ => 16) demo_files /\
  rpm.filenames (snd demo_writeArchive) =
    rpm.filenames empty_builder ++ map rpm.File_String demo_files /\
  rpm.md5sums (snd demo_writeArchive) =
    rpm.md5sums empty_builder ++ map (file_digest demo_md5 demo_os_Open) demo_files.
Proof.
  apply (@writeArchive_sizes demo_md5 demo_gzip_written _ []
           demo_cpio_WriteHeader demo_cpio_Write demo_cpio_Close (fun w => w)
           demo_os_Open empty_builder (snd demo_writeArchive) demo_files
           (demo_gzip_written [])).
  vm_compute. reflexivity.
Defined.

(** The file of ten bytes is recorded with the size 16. *)
Example demo_sizes :
  rpm.sizes (snd demo_writeArchive) = [16] /\
  rpm.filenames (snd demo_writeArchive) = [str "usr/share/hello.txt"] /\
  match demo_os_Open (str "hello.txt") with
  | inl i => rpm.f_Size i = 10 /\ len (rpm.f_data i) = 10
  | inr _ => False
  end.
Proof. vm_compute. repeat split. Qed.

Lemma writeFields_offsets_witness :
  let fs := rpm.controlToFields demo_control in
  let out := rpm.writeFields fs false in
  be_decode (firstn 4 (skipn 12 out)) = store_len (kept fs) /\
  forall (k : nat) (f : rpm.Field),
    nth_error (kept fs) k = Some f ->
    firstn 16 (skipn (16 + 16 * k) out) =
      be_bytes 4 (rpm.Tag f) ++ be_bytes 4 (rpm.Type_ f) ++
      be_bytes 4 (store_len (firstn k (kept fs))) ++ be_bytes 4 (rpm.Len f) /\
    be_decode (firstn 4 (skipn (16 + 16 * k + 8) out)) =
      store_len (firstn k (kept fs)).
Proof.
  apply (@writeFields_offsets (rpm.controlToFields demo_control) false).
  vm_compute. reflexivity.
Defined.

(** The metadata of the demo control file: two entries, the version at
    offset 5 of a store of 9 bytes. *)
Example demo_metadata_block :
  rpm.writeMetadata demo_control =
  be_bytes 4 0x8eade801 ++ be_bytes 4 0 ++ be_bytes 4 2 ++ be_bytes 4 9 ++
  (be_bytes 4 1000 ++ be_bytes 4 6 ++ be_bytes 4 0 ++ be_bytes 4 1) ++
  (be_bytes 4 1001 ++ be_bytes 4 6 ++ be_bytes 4 5 ++ be_bytes 4 1) ++
  str "demo" ++ [x00] ++ str "1.0" ++ [x00].
Proof. vm_compute. reflexivity. Qed.

(** ** Further properties of package ar *)

Lemma Equal_eq (a b : list byte) : ar.Equal a b = true <-> a = b.
Proof.
  revert b. induction a as [|x a IH]; intros [|y b]; simpl; split;
    try discriminate; try reflexivity.
  - intros H. apply andb_prop in H. destruct H as [Hxy Hab].
    apply Byte.byte_dec_bl in Hxy. apply IH in Hab. congruence.
  - intros H. injection H as -> ->. apply andb_true_intro. split.
    + apply Byte.byte_dec_lb. reflexivity.
    + apply IH. reflexivity.
Qed.

(** X1. [NewReader] accepts a source exactly when it holds at least 8
    bytes and starts with the 7 bytes of the magic, and then starts
    reading at the ninth byte: the byte after the magic is consumed
    without being compared with the line feed. *)
Theorem NewReader_accepts (src : list byte) :
  (exists r, ar.NewReader src = (Some r, None)) <->
  (8 <= len src /\ firstn 7 src = ar.magic).
Proof.
  unfold ar.NewReader. change (len ar.magic) with 7.
  change (length ar.magic) with 7%nat. split.
  - intros [r H].
    destruct (len src <? 7) eqn:E1; [discriminate|].
    destruct (ar.Equal (firstn 7 src) ar.magic) eqn:E2; [|discriminate].
    cbn [negb] in H.
    destruct (len src <? 7 + 1) eqn:E3; [discriminate|].
    apply Z.ltb_ge in E3. apply Equal_eq in E2. split; [lia | exact E2].
  - intros [Hl Hm].
    replace (len src <? 7) with false by (symmetry; apply Z.ltb_ge; lia).
    replace (len src <? 7 + 1) with false by (symmetry; apply Z.ltb_ge; lia).
    apply Equal_eq in Hm. rewrite Hm. cbn [negb]. eexists. reflexivity.
Qed.

(** X2. A source of at least 7 bytes that does not start with the magic
    is refused with [ErrMagic]; a shorter one with [io.EOF]. *)
Theorem NewReader_refuses (src : list byte) :
  (len src < 7 -> ar.NewReader src = (None, Some EOF)) /\
  (7 <= len src -> firstn 7 src <> ar.magic ->
   ar.NewReader src = (None, Some ErrMagic)).
Proof.
  unfold ar.NewReader. change (len ar.magic) with 7.
  change (length ar.magic) with 7%nat. split.
  - intros H.
    replace (len src <? 7) with true by (symmetry; apply Z.ltb_lt; lia).
    reflexivity.
  - intros Hl Hm.
    replace (len src <? 7) with false by (symmetry; apply Z.ltb_ge; lia).
    destruct (ar.Equal (firstn 7 src) ar.magic) eqn:E; [|reflexivity].
    apply Equal_eq in E. contradiction.
Qed.

(** The pad byte that follows a payload of [L] bytes. *)
Definition pad_byte (L : Z) : list byte :=
  if L mod 2 =? 1 then [x0a] else [].

Lemma firstn_app_le {A : Type} (k : nat) (l r : list A) :
  (k <= length l)%nat -> firstn k (l ++ r) = firstn k l.
Proof.
  intros H. rewrite firstn_app.
  replace (k - length l)%nat with 0%nat by lia.
  cbn [firstn]. apply app_nil_r.
Qed.

(** [Read] on a reader that holds a header, no error, and the payload
    the header declares followed by its pad byte. *)
Lemma Read_entry (h : ar.Header) (payload tail buf : list byte) :
  ar.Length h = len payload ->
  let k := Nat.min (length buf) (length payload) in
  ar.Read {| ar.r_inner := payload ++ pad_byte (len payload) ++ tail;
             ar.r_hdr := Some h; ar.r_err := None |} buf =
  Done (firstn k payload ++ skipn k buf, Z.of_nat k, None,
        {| ar.r_inner := tail; ar.r_hdr := Some h; ar.r_err := None |}).
Proof.
  intros HL k. unfold ar.Read. cbn [ar.r_err ar.r_hdr ar.r_inner]. rewrite HL.
  pose proof (len_nonneg payload) as Hnn.
  replace (len payload <? 0) with false by (symmetry; apply Z.ltb_ge; lia).
  rewrite ReadFull_exact by (unfold len; lia).
  fold k.
  assert (Hrest : (if len payload mod 2 =? 1
                   then skipn 1 (pad_byte (len payload) ++ tail)
                   else pad_byte (len payload) ++ tail) = tail).
  { unfold pad_byte. destruct (len payload mod 2 =? 1); reflexivity. }
  rewrite Hrest. reflexivity.
Qed.

(** X3. [Read] always consumes the whole payload of the current entry
    and its pad byte, whatever the size of the buffer: a buffer shorter
    than the payload receives the first [len(buf)] bytes only, the count
    returned is the smaller of the two lengths, and the rest of the
    payload is dropped. *)
Theorem Read_consumes_entry (r : ar.Reader) (h : ar.Header)
        (payload tail buf : list byte) :
  ar.r_err r = None -> ar.r_hdr r = Some h ->
  ar.Length h = len payload ->
  ar.r_inner r = payload ++ pad_byte (len payload) ++ tail ->
  let k := Nat.min (length buf) (length payload) in
  ar.Read r buf =
  Done (firstn k payload ++ skipn k buf, Z.of_nat k, None,
        {| ar.r_inner := tail; ar.r_hdr := Some h; ar.r_err := None |}).
Proof.
  intros He Hh HL Hin. destruct r as [inner hdr err].
  cbn [ar.r_err ar.r_hdr ar.r_inner] in He, Hh, Hin. subst inner hdr err.
  apply Read_entry. exact HL.
Qed.

(** X4. When the source ends before the declared length, [Read] returns
    the bytes there are with [io.ErrUnexpectedEOF] ([io.EOF] when there is
    none), and the reader keeps the error: every later [Read] returns it
    with 0 bytes and leaves the buffer alone. *)
Theorem Read_short_payload (r : ar.Reader) (h : ar.Header) (buf buf2 : list byte) :
  ar.r_err r = None -> ar.r_hdr r = Some h ->
  len (ar.r_inner r) < ar.Length h ->
  let e := match ar.r_inner r with [] => EOF | _ => ErrUnexpectedEOF end in
  let k := Nat.min (length buf) (length (ar.r_inner r)) in
  let r' := {| ar.r_inner := []; ar.r_hdr := Some h; ar.r_err := Some e |} in
  ar.Read r buf =
    Done (firstn k (ar.r_inner r) ++ skipn k buf, Z.of_nat k, Some e, r') /\
  ar.Read r' buf2 = Done (buf2, 0, Some e, r').
Proof.
  intros He Hh Hlt e k r'. split; [|reflexivity].
  unfold ar.Read. rewrite He, Hh.
  pose proof (len_nonneg (ar.r_inner r)) as Hnn.
  replace (ar.Length h <? 0) with false by (symmetry; apply Z.ltb_ge; lia).
  unfold ar.ReadFull.
  assert (Hall : (length (ar.r_inner r) <= Z.to_nat (ar.Length h))%nat)
    by (unfold len in Hlt; lia).
  rewrite firstn_all2, skipn_all2 by exact Hall.
  replace (len (ar.r_inner r) =? Z.max 0 (ar.Length h)) with false
    by (symmetry; apply Z.eqb_neq; lia).
  assert (Hskip : (if ar.Length h mod 2 =? 1 then skipn 1 (@nil byte) else [])
                  = []) by (destruct (ar.Length h mod 2 =? 1); reflexivity).
  unfold e, k, r'. destruct (ar.r_inner r) as [|b s]; rewrite Hskip; reflexivity.
Qed.

(** X5. A header that fits followed by its payload keeps the sink
    aligned: when the sink holds an even number of bytes before
    [WriteHeader] and [Write], it holds an even number after them, the
    header, the payload and the pad byte appended in that order. [Write]
    takes a payload of any length, whatever the header declared. *)
Theorem Write_keeps_even (w : ar.Writer) (h : ar.Header) (payload : list byte) :
  fits h -> ar.w_err w = None -> len (ar.w_inner w) mod 2 = 0 ->
  exists w1 w2,
    ar.WriteHeader w h = Done (None, w1) /\
    ar.Write w1 payload = (len payload, None, w2) /\
    ar.w_inner w2 =
      ar.w_inner w ++ encoded h ++ payload ++ pad_byte (len payload) /\
    len (ar.w_inner w2) mod 2 = 0.
Proof.
  intros Hfit He Hev.
  exists {| ar.w_inner := ar.w_inner w ++ encoded h; ar.w_hdr := h;
            ar.w_err := ar.w_err w |}.
  eexists. split.
  { unfold ar.WriteHeader. rewrite He, encodeHeader_fits by exact Hfit.
    reflexivity. }
  split; [reflexivity|].
  cbn [ar.w_inner].
  assert (Hvs : (if len payload mod 2 =? 1 then payload ++ [x0a] else payload)
                = payload ++ pad_byte (len payload)).
  { unfold pad_byte. destruct (len payload mod 2 =? 1);
      [reflexivity | symmetry; apply app_nil_r]. }
  rewrite Hvs. split; [rewrite <- app_assoc; reflexivity|].
  rewrite !len_app. unfold len at 2. rewrite encoded_length by exact Hfit.
  unfold pad_byte.
  pose proof (Z.mod_pos_bound (len payload) 2 ltac:(lia)) as Hb.
  destruct (len payload mod 2 =? 1) eqn:E.
  - apply Z.eqb_eq in E. change (len [x0a]) with 1.
    pose proof (Z.div_mod (len (ar.w_inner w)) 2 ltac:(lia)) as Da.
    pose proof (Z.div_mod (len payload) 2 ltac:(lia)) as Dp.
    match goal with
    | |- ?x mod 2 = 0 =>
        replace x
          with ((len (ar.w_inner w) / 2 + 30 + len payload / 2 + 1) * 2) by lia
    end.
    apply Z.mod_mul. lia.
  - apply Z.eqb_neq in E. change (len (@nil byte)) with 0.
    pose proof (Z.div_mod (len (ar.w_inner w)) 2 ltac:(lia)) as Da.
    pose proof (Z.div_mod (len payload) 2 ltac:(lia)) as Dp.
    match goal with
    | |- ?x mod 2 = 0 =>
        replace x
          with ((len (ar.w_inner w) / 2 + 30 + len payload / 2) * 2) by lia
    end.
    apply Z.mod_mul. lia.
Qed.

(** What the reader makes of a mode: the octal text read as a number
    with base 0. *)
Definition mode_read (m : Z) : Z :=
  fst (strconv.ParseInt (strconv.FormatInt m 8) 0 64).

Section ListFacts.

Variable f : list byte -> list byte.

(** The header that [Next] returns for the bytes of [h]. *)
Definition decode_of (h : ar.Header) : ar.Header :=
  decoded f h (mode_read (ar.Mode h)).

Lemma Next_fields_exact (h : ar.Header) (rest : list byte)
      (hdr0 : option ar.Header) :
  fits h ->
  ar.Next f {| ar.r_inner := fields h ++ rest; ar.r_hdr := hdr0;
               ar.r_err := None |} =
  trailer_step {| ar.r_inner := fields h ++ rest; ar.r_hdr := hdr0;
                  ar.r_err := None |} (decode_of h) rest.
Proof.
  intros H.
  destruct (fits_widths H) as (H1 & H2 & H3 & H4 & H5 & H6).
  destruct (fits_two63 H) as (T1 & T2 & T3 & T4 & T5).
  pose proof (fields_length H) as Hlen58.
  destruct H as (Hn & Hu & Hg & Hm & Hl & Ht).
  destruct (ParseInt_FormatInt_octal Hm) as [v Hv].
  destruct (FormatInt_solid (b := 8) (n := ar.Mode h) ltac:(lia) T4)
    as [Hne Hs].
  assert (Hmr : mode_read (ar.Mode h) = v)
    by (unfold mode_read; rewrite Hv; reflexivity).
  unfold decode_of. rewrite Hmr.
  unfold ar.Next. cbn [ar.r_err ar.r_inner ar.r_hdr].
  assert (Hlen : (len (fields h ++ rest) <? 16) = false).
  { apply Z.ltb_ge. rewrite len_app. unfold len at 1. rewrite Hlen58.
    pose proof (len_nonneg rest). lia. }
  rewrite Hlen. unfold fields. rewrite <- !app_assoc.
  unfold ar.readFilename. rewrite readHeaderField_pad by exact H1.
  unfold ar.readModTime. rewrite readInt_FormatInt by assumption.
  unfold ar.readFileInfos.
  rewrite readInt_FormatInt by assumption.
  rewrite readInt_FormatInt by assumption.
  rewrite (readInt_pad f _ H5 Hne Hs Hv).
  rewrite readInt_FormatInt by assumption.
  reflexivity.
Qed.

Lemma Next_encoded_exact (h : ar.Header) (tail : list byte)
      (hdr0 : option ar.Header) :
  fits h ->
  ar.Next f {| ar.r_inner := encoded h ++ tail; ar.r_hdr := hdr0;
               ar.r_err := None |} =
  (Some (decode_of h), None,
   {| ar.r_inner := tail; ar.r_hdr := Some (decode_of h); ar.r_err := None |}).
Proof.
  intros H. unfold encoded. rewrite <- app_assoc.
  rewrite (Next_fields_exact (ar.linefeed ++ tail) hdr0 H). reflexivity.
Qed.

End ListFacts.

Lemma be_val_base_lt (ds : list Z) :
  Forall (is_digit 8) ds -> forall a8 a10, 0 <= a8 < a10 ->
  be_val 8 a8 ds < be_val 10 a10 ds.
Proof.
  intros H. induction H as [|d ds Hd _ IH]; intros a8 a10 Ha.
  - simpl. lia.
  - rewrite !be_val_cons. unfold is_digit in Hd. apply IH. lia.
Qed.

(** Reading the octal text of a mode in base 10 gives the mode back for
    a single digit only. *)
Lemma mode_read_spec (m : Z) :
  0 <= m < 8 ^ 8 -> (mode_read m = m <-> m < 8) /\ m <= mode_read m.
Proof.
  intros Hm. unfold mode_read, strconv.FormatInt.
  replace (m <? 0) with false by (symmetry; apply Z.ltb_ge; lia).
  assert (H63 : m < two63)
    by (unfold two63; change (8 ^ 8) with 16777216 in Hm; lia).
  destruct (FormatUint_shape (b := 8) (n := m) ltac:(lia) ltac:(lia))
    as (d & ds & Hs & Hd & Hz & Hv).
  pose proof (FormatUint_length (b := 8) (n := m) (k := 8) ltac:(lia) Hm ltac:(lia))
    as Hl.
  rewrite Hs in Hl. unfold len in Hl. rewrite length_map in Hl.
  assert (Hd10 : Forall (is_digit 10) (d :: ds)).
  { eapply Forall_impl; [|exact Hd]. intros a. apply is_digit_weaken. lia. }
  pose proof (be_val_lt (b := 10) ltac:(lia) Hd10 (acc := 0) ltac:(lia)) as Hb.
  assert (Hp : 10 ^ Z.of_nat (length (d :: ds)) <= 10 ^ 8)
    by (apply Z.pow_le_mono_r; lia).
  change (10 ^ 8) with 100000000 in Hp.
  rewrite Hs, ParseInt_digits by (try assumption; unfold two63; lia).
  cbn [fst]. inversion Hd as [|? ? Hd0 Hds]; subst.
  unfold is_digit in Hd0.
  destruct ds as [|x ds].
  - cbn in *. lia.
  - rewrite !be_val_cons in *.
    replace (0 * 8 + d) with d in * by lia.
    replace (0 * 10 + d) with d in * by lia.
    assert (d <> 0) by (intros ->; specialize (Hz eq_refl); discriminate).
    inversion Hds as [|? ? Hx Hds']; subst. unfold is_digit in Hx.
    pose proof (be_val_base_lt Hds' (a8 := d * 8 + x) (a10 := d * 10 + x)
                  ltac:(lia)) as Hlt.
    pose proof (be_val_ge (b := 8) ltac:(lia) Hds' (acc := d * 8 + x) ltac:(lia)).
    lia.
Qed.

Lemma Read_at_end (h : ar.Header) (buf : list byte) :
  0 < ar.Length h ->
  ar.Read {| ar.r_inner := []; ar.r_hdr := Some h; ar.r_err := None |} buf =
  Done (buf, 0, Some EOF,
        {| ar.r_inner := []; ar.r_hdr := Some h; ar.r_err := Some EOF |}).
Proof.
  intros H. unfold ar.Read. cbn [ar.r_err ar.r_hdr ar.r_inner].
  replace (ar.Length h <? 0) with false by (symmetry; apply Z.ltb_ge; lia).
  unfold ar.ReadFull. rewrite firstn_nil, skipn_nil.
  change (len (@nil byte)) with 0.
  replace (0 =? Z.max 0 (ar.Length h)) with false
    by (symmetry; apply Z.eqb_neq; lia).
  rewrite Nat.min_0_r.
  destruct (ar.Length h mod 2 =? 1); reflexivity.
Qed.

Lemma discard_loop_unfold (fuel : nat) (r : ar.Reader) (N written : Z) :
  ar.discard_loop (S fuel) r N written =
  if N <=? 0 then Some (Done (written, None, r))
  else
    match ar.Read r (repeat x00 (Z.to_nat (Z.min 8192 N))) with
    | Panic => Some Panic
    | Done (_, k, e, r') =>
        match e with
        | Some EOF => Some (Done (written + k, None, r'))
        | Some err => Some (Done (written + k, Some err, r'))
        | None => ar.discard_loop fuel r' (N - k) (written + k)
        end
    end.
Proof. reflexivity. Qed.

Lemma CopyN_large (h : ar.Header) (payload : list byte) :
  ar.Length h = len payload -> 8192 < len payload ->
  ar.CopyN_Discard
    {| ar.r_inner := payload ++ pad_byte (len payload);
       ar.r_hdr := Some h; ar.r_err := None |} (len payload) =
  Some (Done (8192, Some EOF,
              {| ar.r_inner := []; ar.r_hdr := Some h; ar.r_err := Some EOF |})).
Proof.
  intros HL Hbig. unfold ar.CopyN_Discard.
  generalize (length (ar.r_inner
                {| ar.r_inner := payload ++ pad_byte (len payload);
                   ar.r_hdr := Some h; ar.r_err := None |})).
  intros n. rewrite discard_loop_unfold.
  replace (len payload <=? 0) with false by (symmetry; apply Z.leb_gt; lia).
  pose proof (@Read_entry
                h payload []
                (repeat x00 (Z.to_nat (Z.min 8192 (len payload))))
                HL) as HR.
  cbv zeta in HR. rewrite app_nil_r in HR. rewrite repeat_length in HR.
  assert (Hk : Nat.min (Z.to_nat (Z.min 8192 (len payload))) (length payload)
               = Z.to_nat 8192) by (unfold len in *; lia).
  rewrite Hk in HR. rewrite Z2Nat.id in HR by lia.
  rewrite HR. rewrite discard_loop_unfold.
  replace (len payload - 8192 <=? 0) with false
    by (symmetry; apply Z.leb_gt; lia).
  assert (Hpos : 0 < ar.Length h) by lia.
  rewrite (@Read_at_end h _ Hpos).
  replace (0 + 8192 + 0 =? len payload) with false
    by (symmetry; apply Z.eqb_neq; lia).
  replace (0 + 8192 + 0 <? len payload) with true
    by (symmetry; apply Z.ltb_lt; lia).
  reflexivity.
Qed.

Section ListClaims.

Variable f : list byte -> list byte.

(** X6. The mode does not survive the round trip: [WriteHeader] prints it
    in base 8 and [Next] parses the digits with base 0, that is in base
    10. The mode read back equals the mode written only when it is below
    8; it is larger otherwise (0644 comes back as 644). *)
Theorem mode_roundtrip_slip (h : ar.Header) (tail : list byte)
        (hdr0 : option ar.Header) :
  fits h ->
  exists h' r',
    ar.Next f {| ar.r_inner := encoded h ++ tail; ar.r_hdr := hdr0;
                 ar.r_err := None |} = (Some h', None, r') /\
    ar.Mode h' = mode_read (ar.Mode h) /\
    (ar.Mode h' = ar.Mode h <-> ar.Mode h < 8) /\
    ar.Mode h <= ar.Mode h'.
Proof.
  intros H. eexists _, _. split; [apply Next_encoded_exact; exact H|].
  destruct H as (_ & _ & _ & Hm & _).
  destruct (mode_read_spec Hm) as [Hiff Hle].
  cbn [decode_of decoded ar.Mode]. repeat split; try apply Hiff; assumption.
Qed.

(** The entry that the writer makes of a header and a payload. *)
Definition entry_of (e : ar.Header * list byte) : list byte :=
  encoded (fst e) ++ snd e ++ pad_byte (len (snd e)).




Variable fsys : list byte -> option (list byte).


(** X8. [List] fails on an archive of one entry whose payload holds more
    than 8192 bytes: [io.CopyN] asks [Read] for the rest after the first
    buffer, [Read] starts over with a whole payload that is no longer
    there, and [List] returns [io.EOF] instead of the header. *)
Theorem List_large_payload (file : list byte) (h : ar.Header)
        (payload : list byte) :
  fits h -> ar.Length h = len payload -> 8192 < len payload ->
  fsys file = Some (ar.magic ++ [x0a] ++ entry_of (h, payload)) ->
  ar.List f fsys file = Some (Done (None, Some EOF)).
Proof.
  intros Hfit HL Hbig Hopen. unfold ar.List.
  rewrite Hopen, NewReader_magic.
  generalize (length (ar.magic ++ [x0a] ++ entry_of (h, payload))).
  intros n. cbn [ar.list_loop].
  unfold entry_of. cbn [fst snd].
  rewrite (Next_encoded_exact f _ None Hfit).
  assert (HL' : ar.Length (decode_of f h) = len payload) by exact HL.
  rewrite HL'. rewrite (@CopyN_large (decode_of f h) payload HL' Hbig).
  reflexivity.
Qed.

End ListClaims.

(** *** The further properties of package ar at concrete inputs *)

Definition demo_reader (inner : list byte) : ar.Reader :=
  {| ar.r_inner := inner; ar.r_hdr := Some demo_header; ar.r_err := None |}.

Lemma Read_consumes_entry_witness :
  let k := Nat.min (length (repeat x00 4)) (length demo_payload) in
  ar.Read (demo_reader (demo_payload ++ pad_byte (len demo_payload) ++ str "next"))
    (repeat x00 4) =
  Done (firstn k demo_payload ++ skipn k (repeat x00 4), Z.of_nat k, None,
        {| ar.r_inner := str "next"; ar.r_hdr := Some demo_header;
           ar.r_err := None |}).
Proof.
  apply (@Read_consumes_entry
           (demo_reader (demo_payload ++ pad_byte (len demo_payload) ++ str "next"))
           demo_header demo_payload (str "next") (repeat x00 4));
    reflexivity.
Defined.

Lemma Read_short_payload_witness :
  let r := demo_reader (str "0123") in
  let e := match ar.r_inner r with [] => EOF | _ => ErrUnexpectedEOF end in
  let k := Nat.min (length (repeat x00 16)) (length (ar.r_inner r)) in
  let r' := {| ar.r_inner := []; ar.r_hdr := Some demo_header;
               ar.r_err := Some e |} in
  ar.Read r (repeat x00 16) =
    Done (firstn k (ar.r_inner r) ++ skipn k (repeat x00 16), Z.of_nat k,
          Some e, r') /\
  ar.Read r' (repeat x00 2) = Done (repeat x00 2, 0, Some e, r').
Proof.
  apply (@Read_short_payload (demo_reader (str "0123")) demo_header
           (repeat x00 16) (repeat x00 2)); reflexivity.
Defined.

Lemma Write_keeps_even_witness :
  exists w1 w2,
    ar.WriteHeader (fst (ar.NewWriter [])) demo_header = Done (None, w1) /\
    ar.Write w1 (str "abc") = (len (str "abc"), None, w2) /\
    ar.w_inner w2 =
      ar.w_inner (fst (ar.NewWriter [])) ++ encoded demo_header ++
      str "abc" ++ pad_byte (len (str "abc")) /\
    len (ar.w_inner w2) mod 2 = 0.
Proof.
  apply (@Write_keeps_even (fst (ar.NewWriter [])) demo_header (str "abc")).
  - unfold fits. cbn. lia.
  - reflexivity.
  - reflexivity.
Defined.

Lemma mode_roundtrip_slip_witness :
  exists h' r',
    ar.Next no_unicode_trim
      {| ar.r_inner := encoded demo_header ++ demo_payload; ar.r_hdr := None;
         ar.r_err := None |} = (Some h', None, r') /\
    ar.Mode h' = mode_read (ar.Mode demo_header) /\
    (ar.Mode h' = ar.Mode demo_header <-> ar.Mode demo_header < 8) /\
    ar.Mode demo_header <= ar.Mode h'.
Proof.
  apply (@mode_roundtrip_slip no_unicode_trim demo_header demo_payload None).
  unfold fits. cbn. lia.
Defined.





Definition large_header : ar.Header :=
  {| ar.Name := str "big"; ar.Uid := 0; ar.Gid := 0; ar.Mode := 0;
     ar.Length := 8193; ar.ModTime := ar.time_Unix 0 0 |}.

Definition large_payload : list byte := repeat x41 (Z.to_nat 8193).

Definition large_fsys (p : list byte) : option (list byte) :=
  if ar.Equal p (str "big.ar")
  then Some (ar.magic ++ [x0a] ++ entry_of (large_header, large_payload))
  else None.

Lemma List_large_payload_witness :
  ar.List no_unicode_trim large_fsys (str "big.ar") = Some (Done (None, Some EOF)).
Proof.
  apply (@List_large_payload no_unicode_trim large_fsys (str "big.ar")
           large_header large_payload).
  - unfold fits. cbn. lia.
  - vm_compute. reflexivity.
  - vm_compute. reflexivity.
  - reflexivity.
Defined.

(** The six strings of a header within the widths of their columns. *)
Definition widths_ok (h : ar.Header) : Prop :=
  len (path.Base (ar.Name h) ++ str "/") <= 16 /\
  len (strconv.FormatInt (ar.Unix (ar.ModTime h)) 10) <= 12 /\
  len (strconv.FormatInt (ar.Uid h) 10) <= 6 /\
  len (strconv.FormatInt (ar.Gid h) 10) <= 6 /\
  len (strconv.FormatInt (ar.Mode h) 8) <= 8 /\
  len (strconv.FormatInt (ar.Length h) 10) <= 10.

Lemma encodeHeader_panics_iff (h : ar.Header) :
  ar.encodeHeader h = Panic <-> ~ widths_ok h.
Proof.
  unfold ar.encodeHeader, widths_ok.
  set (s1 := path.Base (ar.Name h) ++ str "/").
  set (s2 := strconv.FormatInt (ar.Unix (ar.ModTime h)) 10).
  set (s3 := strconv.FormatInt (ar.Uid h) 10).
  set (s4 := strconv.FormatInt (ar.Gid h) 10).
  set (s5 := strconv.FormatInt (ar.Mode h) 8).
  set (s6 := strconv.FormatInt (ar.Length h) 10).
  destruct (Z_le_gt_dec (len s1) 16) as [H1|H1];
    [rewrite (writeHeaderField_fits [] _ H1)
    |rewrite writeHeaderField_wide by lia;
     cbn [obind]; split; [intros _ Hc; decompose [and] Hc; lia | reflexivity]].
  cbn [obind].
  destruct (Z_le_gt_dec (len s2) 12) as [H2|H2];
    [rewrite (writeHeaderField_fits _ _ H2)
    |rewrite writeHeaderField_wide by lia;
     cbn [obind]; split; [intros _ Hc; decompose [and] Hc; lia | reflexivity]].
  cbn [obind].
  destruct (Z_le_gt_dec (len s3) 6) as [H3|H3];
    [rewrite (writeHeaderField_fits _ _ H3)
    |rewrite writeHeaderField_wide by lia;
     cbn [obind]; split; [intros _ Hc; decompose [and] Hc; lia | reflexivity]].
  cbn [obind].
  destruct (Z_le_gt_dec (len s4) 6) as [H4|H4];
    [rewrite (writeHeaderField_fits _ _ H4)
    |rewrite writeHeaderField_wide by lia;
     cbn [obind]; split; [intros _ Hc; decompose [and] Hc; lia | reflexivity]].
  cbn [obind].
  destruct (Z_le_gt_dec (len s5) 8) as [H5|H5];
    [rewrite (writeHeaderField_fits _ _ H5)
    |rewrite writeHeaderField_wide by lia;
     cbn [obind]; split; [intros _ Hc; decompose [and] Hc; lia | reflexivity]].
  cbn [obind].
  destruct (Z_le_gt_dec (len s6) 10) as [H6|H6];
    [rewrite (writeHeaderField_fits _ _ H6)
    |rewrite writeHeaderField_wide by lia;
     cbn [obind]; split; [intros _ Hc; decompose [and] Hc; lia | reflexivity]].
  cbn [obind]. split; [discriminate | intros H; exfalso; apply H; repeat split; lia].
Qed.

(** X9. [WriteHeader] on a writer without recorded error panics exactly
    when one of the six strings it prints (base name with its slash,
    modification time, uid, gid, mode in base 8, length) is wider than its
    column of 16, 12, 6, 6, 8 and 10 bytes; otherwise it appends 60 bytes
    to the sink and records the header. Nothing is truncated. *)
Theorem WriteHeader_panics_iff (w : ar.Writer) (h : ar.Header) :
  (ar.w_err w = None ->
   (ar.WriteHeader w h = Panic <-> ~ widths_ok h) /\
   (widths_ok h ->
    exists buf, length buf = 60%nat /\
      ar.WriteHeader w h =
      Done (None, {| ar.w_inner := ar.w_inner w ++ buf; ar.w_hdr := h;
                     ar.w_err := None |}))) /\
  (forall e, ar.w_err w = Some e -> ar.WriteHeader w h = Done (Some e, w)).
Proof.
  split.
  - intros He. unfold ar.WriteHeader. rewrite He.
    pose proof (encodeHeader_panics_iff h) as Hp. split.
    + destruct (ar.encodeHeader h) as [buf|] eqn:E; cbn [obind].
      * split; [discriminate|]. intros Hn. apply Hp in Hn. discriminate.
      * split; [intros _; apply Hp; reflexivity | reflexivity].
    + intros Hw.
      destruct (ar.encodeHeader h) as [buf|] eqn:E.
      * exists buf. split; [|reflexivity].
        revert E. unfold ar.encodeHeader.
        destruct Hw as (H1 & H2 & H3 & H4 & H5 & H6).
        rewrite (writeHeaderField_fits [] _ H1). cbn [obind].
        rewrite (writeHeaderField_fits _ _ H2). cbn [obind].
        rewrite (writeHeaderField_fits _ _ H3). cbn [obind].
        rewrite (writeHeaderField_fits _ _ H4). cbn [obind].
        rewrite (writeHeaderField_fits _ _ H5). cbn [obind].
        rewrite (writeHeaderField_fits _ _ H6). cbn [obind].
        intros E. injection E as <-.
        rewrite !length_app, !pad_length by assumption. reflexivity.
      * exfalso. apply Hp; [reflexivity | exact Hw].
  - intros e He. unfold ar.WriteHeader. rewrite He. reflexivity.
Qed.

Lemma ReadFull_success (src bs rest : list byte) (n : Z) :
  0 <= n -> ar.ReadFull src n = (bs, None, rest) ->
  src = bs ++ rest /\ len bs = n.
Proof.
  intros Hn. unfold ar.ReadFull.
  destruct (len (firstn (Z.to_nat n) src) =? Z.max 0 n) eqn:E.
  - intros H. injection H as <- <-. apply Z.eqb_eq in E. split.
    + symmetry. apply firstn_skipn.
    + lia.
  - destruct (firstn (Z.to_nat n) src); discriminate.
Qed.

Section ConsumeFacts.

Variable f : list byte -> list byte.

Lemma readHeaderField_success (src bs rest : list byte) (n : Z) :
  0 <= n -> ar.readHeaderField f src n = (bs, None, rest) ->
  exists raw, src = raw ++ rest /\ len raw = n.
Proof.
  intros Hn. unfold ar.readHeaderField.
  destruct (ar.ReadFull src n) as [[raw [e|]] rest0] eqn:E; [discriminate|].
  intros H. injection H as _ <-. exists raw.
  apply ReadFull_success; assumption.
Qed.

Lemma readInt_success (src rest : list byte) (n i : Z) :
  0 <= n -> ar.readInt f src n = (i, None, rest) ->
  exists raw, src = raw ++ rest /\ len raw = n.
Proof.
  intros Hn. unfold ar.readInt.
  destruct (ar.readHeaderField f src n) as [[bs [e|]] rest0] eqn:E;
    [discriminate|].
  destruct (strconv.ParseInt bs 0 64) as [v e]. intros H.
  injection H as _ _ <-. eapply readHeaderField_success; eassumption.
Qed.

(** What a header returned by [Next] tells about the reader. *)
Lemma Next_some (r r' : ar.Reader) (h : ar.Header)
        (e : option error) :
  ar.Next f r = (Some h, e, r') ->
  e = None /\ ar.r_err r = None /\ ar.r_err r' = None /\
  ar.r_hdr r' = Some h /\
  exists raw, len raw = 58 /\
              ar.r_inner r = raw ++ ar.linefeed ++ ar.r_inner r'.
Proof.
  unfold ar.Next. destruct (ar.r_err r) as [e0|] eqn:Herr; [discriminate|].
  destruct (len (ar.r_inner r) <? 16); [discriminate|].
  unfold ar.readFilename.
  destruct (ar.readHeaderField f (ar.r_inner r) 16) as [[b1 [e1|]] s1] eqn:E1;
    [discriminate|].
  unfold ar.readModTime.
  destruct (ar.readInt f s1 12) as [[i2 [e2|]] s2] eqn:E2; [discriminate|].
  unfold ar.readFileInfos.
  destruct (ar.readInt f s2 6) as [[i3 [e3|]] s3] eqn:E3; [discriminate|].
  destruct (ar.readInt f s3 6) as [[i4 [e4|]] s4] eqn:E4; [discriminate|].
  destruct (ar.readInt f s4 8) as [[i5 [e5|]] s5] eqn:E5; [discriminate|].
  destruct (ar.readInt f s5 10) as [[i6 [e6|]] s6] eqn:E6; [discriminate|].
  apply readHeaderField_success in E1; [|lia].
  apply readInt_success in E2; [|lia]. apply readInt_success in E3; [|lia].
  apply readInt_success in E4; [|lia]. apply readInt_success in E5; [|lia].
  apply readInt_success in E6; [|lia].
  destruct E1 as (r1 & -> & L1). destruct E2 as (r2 & -> & L2).
  destruct E3 as (r3 & -> & L3). destruct E4 as (r4 & -> & L4).
  destruct E5 as (r5 & -> & L5). destruct E6 as (r6 & -> & L6).
  destruct s6 as [|c1 [|c2 t]]; [discriminate | |].
  - cbn [firstn length Nat.sub repeat app skipn].
    destruct (ar.Equal [c1; x00] ar.linefeed) eqn:Eq; [|discriminate].
    apply Equal_eq in Eq. discriminate Eq.
  - cbn [firstn length Nat.sub repeat app skipn].
    destruct (ar.Equal [c1; c2] ar.linefeed) eqn:Eq; [|discriminate].
    apply Equal_eq in Eq. cbn [negb]. intros H. injection H as <- <- <-.
    cbn [ar.r_err ar.r_hdr ar.r_inner]. repeat split.
    exists (r1 ++ r2 ++ r3 ++ r4 ++ r5 ++ r6). split.
    + rewrite !len_app. lia.
    + rewrite <- Eq. cbn [app]. rewrite <- !app_assoc. reflexivity.
Qed.

(** X10. [Next] returns a header only after it has consumed exactly 60
    bytes, the last two being the delimiter 0x60 0x0A; it then returns no
    error, and the header returned is the one the reader keeps for
    [Read]. *)
Theorem Next_header_consumes (r r' : ar.Reader) (h : ar.Header)
        (e : option error) :
  ar.Next f r = (Some h, e, r') ->
  e = None /\ ar.r_err r = None /\ ar.r_err r' = None /\
  ar.r_hdr r' = Some h /\
  len (ar.r_inner r) = 60 + len (ar.r_inner r') /\
  firstn 2 (skipn 58 (ar.r_inner r)) = ar.linefeed /\
  skipn 60 (ar.r_inner r) = ar.r_inner r'.
Proof.
  intros H. apply Next_some in H.
  destruct H as (He & H1 & H2 & H3 & raw & Hraw & Hin).
  repeat (split; [assumption|]). rewrite Hin. unfold len in Hraw.
  split; [|split].
  - rewrite !len_app. unfold len. change (length ar.linefeed) with 2%nat. lia.
  - rewrite (@skipn_len _ 58 raw) by lia.
    apply (@firstn_len _ 2 ar.linefeed). reflexivity.
  - rewrite app_assoc. apply skipn_len. rewrite length_app.
    change (length ar.linefeed) with 2%nat. lia.
Qed.

End ConsumeFacts.

(** *** [List] terminates *)

Lemma ReadFull_rest (src : list byte) (n : Z) :
  snd (ar.ReadFull src n) = skipn (Z.to_nat n) src.
Proof.
  unfold ar.ReadFull.
  destruct (len (firstn (Z.to_nat n) src) =? Z.max 0 n); [reflexivity|].
  destruct (firstn (Z.to_nat n) src); reflexivity.
Qed.

Lemma Read_shrinks (r r' : ar.Reader) (buf b : list byte) (k : Z)
      (e : option error) :
  ar.Read r buf = Done (b, k, e, r') ->
  (length (ar.r_inner r') <= length (ar.r_inner r))%nat /\
  ar.r_hdr r' = ar.r_hdr r /\
  (forall h, ar.r_hdr r = Some h -> 0 < ar.Length h -> e = None ->
             (length (ar.r_inner r') < length (ar.r_inner r))%nat).
Proof.
  unfold ar.Read. destruct (ar.r_err r) as [e0|].
  - intros H. injection H as _ _ <- <-. repeat split; try lia.
    intros; discriminate.
  - destruct (ar.r_hdr r) as [h0|] eqn:Hh; [|discriminate].
    destruct (ar.Length h0 <? 0) eqn:El; [discriminate|].
    apply Z.ltb_ge in El.
    pose proof (ReadFull_rest (ar.r_inner r) (ar.Length h0)) as Hrest.
    destruct (ar.ReadFull (ar.r_inner r) (ar.Length h0)) as [[vs e1] rest] eqn:ER.
    cbn [snd] in Hrest.
    set (rest2 := if ar.Length h0 mod 2 =? 1 then skipn 1 rest else rest).
    assert (Hle : (length rest2 <= length rest)%nat).
    { unfold rest2. destruct (ar.Length h0 mod 2 =? 1);
        [rewrite length_skipn|]; lia. }
    assert (Hr : (length rest <= length (ar.r_inner r))%nat)
      by (rewrite Hrest, length_skipn; lia).
    clearbody rest2.
    intros H. injection H as _ _ <- <-.
    cbn [ar.r_inner ar.r_hdr].
    repeat split; try lia.
    intros h Heq Hpos ->. injection Heq as ->.
    apply ReadFull_success in ER; [|lia]. destruct ER as [Hsrc Hlen].
    rewrite Hsrc, length_app. unfold len in Hlen. lia.
Qed.

Lemma discard_loop_shrinks (fuel : nat) :
  forall (r r' : ar.Reader) (N w x : Z) (e : option error),
    ar.discard_loop fuel r N w = Some (Done (x, e, r')) ->
    (length (ar.r_inner r') <= length (ar.r_inner r))%nat.
Proof.
  induction fuel as [|fuel IH]; intros r r' N w x e; [discriminate|].
  rewrite discard_loop_unfold. destruct (N <=? 0).
  - intros H. injection H as _ _ <-. lia.
  - destruct (ar.Read r _) as [[[[b k] e1] r1]|] eqn:ER; [|discriminate].
    apply Read_shrinks in ER. destruct ER as (Hle & _ & _).
    destruct e1 as [err|].
    + destruct err; intros H; injection H as _ _ <-; exact Hle.
    + intros H. apply IH in H. lia.
Qed.

Lemma discard_loop_total (fuel : nat) :
  forall (r : ar.Reader) (N w : Z) (h : ar.Header),
    ar.r_hdr r = Some h -> 0 < ar.Length h ->
    (length (ar.r_inner r) < fuel)%nat ->
    exists res, ar.discard_loop fuel r N w = Some res.
Proof.
  induction fuel as [|fuel IH]; intros r N w h Hh Hpos Hf; [lia|].
  rewrite discard_loop_unfold. destruct (N <=? 0); [eexists; reflexivity|].
  destruct (ar.Read r _) as [[[[b k] e1] r1]|] eqn:ER; [|eexists; reflexivity].
  apply Read_shrinks in ER. destruct ER as (Hle & Hhdr & Hlt).
  destruct e1 as [err|].
  - destruct err; eexists; reflexivity.
  - specialize (Hlt h Hh Hpos eq_refl).
    apply (IH r1 _ _ h); [congruence | exact Hpos | lia].
Qed.

Lemma CopyN_total (r : ar.Reader) (h : ar.Header) :
  ar.r_hdr r = Some h ->
  exists res, ar.CopyN_Discard r (ar.Length h) = Some res /\
    forall x e r', res = Done (x, e, r') ->
                   (length (ar.r_inner r') <= length (ar.r_inner r))%nat.
Proof.
  intros Hh. unfold ar.CopyN_Discard.
  assert (Ht : exists res,
             ar.discard_loop (S (S (length (ar.r_inner r)))) r (ar.Length h) 0
             = Some res).
  { destruct (Z_lt_le_dec 0 (ar.Length h)) as [Hpos|Hneg].
    - apply (@discard_loop_total _ r (ar.Length h) 0 h); [exact Hh | exact Hpos | lia].
    - rewrite discard_loop_unfold.
      replace (ar.Length h <=? 0) with true by (symmetry; apply Z.leb_le; lia).
      eexists. reflexivity. }
  destruct Ht as [res Hres]. rewrite Hres.
  destruct res as [[[x e] r1]|].
  - apply discard_loop_shrinks in Hres.
    destruct (x =? ar.Length h).
    + eexists. split; [reflexivity|]. intros ? ? ? H. injection H as _ _ <-.
      exact Hres.
    + destruct e as [err|].
      * eexists. split; [reflexivity|]. intros ? ? ? H. injection H as _ _ <-.
        exact Hres.
      * destruct (x <? ar.Length h); eexists; (split; [reflexivity|]);
          intros ? ? ? H; injection H as _ _ <-; exact Hres.
  - eexists. split; [reflexivity|]. intros; discriminate.
Qed.

Section Termination.

Variable f : list byte -> list byte.
Variable fsys : list byte -> option (list byte).

Lemma list_loop_total (fuel : nat) :
  forall (r : ar.Reader) (hs : list ar.Header),
    (length (ar.r_inner r) < fuel)%nat ->
    exists res, ar.list_loop f fuel r hs = Some res.
Proof.
  induction fuel as [|fuel IH]; intros r hs Hf; [lia|].
  cbn [ar.list_loop].
  destruct (ar.Next f r) as [[oh e] r1] eqn:EN.
  destruct oh as [hd|].
  - apply Next_some in EN.
    destruct EN as (-> & _ & _ & Hh & raw & Hraw & Hin).
    destruct (@CopyN_total r1 hd Hh) as (res & Hres & Hshr). rewrite Hres.
    destruct res as [[[x [err|]] r2]|]; try (eexists; reflexivity).
    apply IH. specialize (Hshr _ _ _ eq_refl).
    rewrite Hin in Hf. rewrite !length_app in Hf.
    change (length ar.linefeed) with 2%nat in Hf. unfold len in Hraw. lia.
  - destruct e as [[]|]; eexists; reflexivity.
Qed.

(** X11. [List] terminates on every file: it returns a result or panics,
    the loop over the entries never runs on for ever. Each header takes 60
    bytes from the source and discarding a payload never gives bytes
    back. *)
Theorem List_terminates (file : list byte) :
  exists res, ar.List f fsys file = Some res.
Proof.
  unfold ar.List. destruct (fsys file) as [content|]; [|eexists; reflexivity].
  destruct (ar.NewReader content) as [[r|] e] eqn:EN; [|eexists; reflexivity].
  apply list_loop_total.
  revert EN. unfold ar.NewReader.
  destruct (len content <? len ar.magic); [discriminate|].
  destruct (negb _); [discriminate|].
  destruct (len content <? len ar.magic + 1); [discriminate|].
  intros H. injection H as <-.
  change (length (skipn (length ar.magic + 1) content) < S (length content))%nat.
  rewrite length_skipn. lia.
Qed.

End Termination.

(** ** Further properties of package rpm *)

Lemma index_from_len (ks : list rpm.Field) :
  forall off, len (concat (index_from off ks)) = 16 * len ks.
Proof.
  induction ks as [|k ks IH]; intros off; [reflexivity|].
  cbn [index_from concat]. rewrite len_app, IH. unfold len.
  rewrite entry_length. cbn [length]. lia.
Qed.

Lemma block_len (ks : list rpm.Field) :
  len (block ks) = 16 + 16 * len ks + store_len ks.
Proof.
  unfold block.
  generalize (be_bytes_length 4 (uint32 (Z.lor (Z.shiftl rpm.MagicHDR 8) 1))).
  generalize (be_bytes 4 (uint32 (Z.lor (Z.shiftl rpm.MagicHDR 8) 1))).
  generalize (be_bytes_length 4 (uint32 0)). generalize (be_bytes 4 (uint32 0)).
  generalize (be_bytes_length 4 (count_from 0 ks)).
  generalize (be_bytes 4 (count_from 0 ks)).
  generalize (be_bytes_length 4 (int32 (len (flat_map rpm.Bytes ks)))).
  generalize (be_bytes 4 (int32 (len (flat_map rpm.Bytes ks)))).
  intros a Ha b Hb c Hc d Hd.
  rewrite !len_app, index_from_len, store_len_flat. unfold len at 1 2 3 4.
  rewrite Ha, Hb, Hc, Hd. lia.
Qed.

(** X12. With [pad] set the block that [writeFields] returns is the
    unpadded block followed by fewer than 8 zero bytes and its length is a
    multiple of 8; without [pad] its length is 16 bytes of prologue and
    counts, 16 bytes per retained field and the bytes of the store,
    nothing more. *)
Theorem writeFields_padding (fs : list rpm.Field) :
  len (rpm.writeFields fs false) =
    16 + 16 * len (kept fs) + store_len (kept fs) /\
  len (rpm.writeFields fs true) mod 8 = 0 /\
  exists k, 0 <= k < 8 /\
    rpm.writeFields fs true =
    rpm.writeFields fs false ++ repeat x00 (Z.to_nat k).
Proof.
  rewrite !writeFields_block. unfold padding.
  generalize (block_len (kept fs)). generalize (block (kept fs)).
  intros blk Hlen. cbn [andb]. rewrite andb_false_r, andb_true_r, app_nil_r.
  split; [exact Hlen|].
  pose proof (Z.mod_pos_bound (len blk) 8 ltac:(lia)) as Hm.
  pose proof (Z.div_mod (len blk) 8 ltac:(lia)) as Hd.
  destruct (len blk mod 8 =? 0) eqn:E; cbn [negb].
  - apply Z.eqb_eq in E. rewrite app_nil_r. split; [exact E|].
    exists 0. split; [lia|]. cbn [Z.to_nat repeat]. rewrite app_nil_r.
    reflexivity.
  - apply Z.eqb_neq in E. split.
    + rewrite len_app. unfold len at 2. rewrite repeat_length.
      rewrite Z2Nat.id by lia.
      replace (len blk + (8 - len blk mod 8)) with ((len blk / 8 + 1) * 8) by lia.
      apply Z.mod_mul. lia.
    + exists (8 - len blk mod 8). split; [lia | reflexivity].
Qed.

Lemma count_from_small (ks : list rpm.Field) :
  forall c, 0 <= c -> c + len ks < 2 ^ 31 -> count_from c ks = c + len ks.
Proof.
  induction ks as [|k ks IH]; intros c Hc Hlt.
  - change (len (@nil rpm.Field)) with 0. simpl. lia.
  - cbn [count_from]. unfold len in *. cbn [length] in *.
    rewrite Nat2Z.inj_succ in *.
    rewrite (int32_small (v := c + 1)) by (change (2 ^ 31) with 2147483648 in *; lia).
    rewrite IH by lia. lia.
Qed.

Lemma kept_twice (fs : list rpm.Field) : kept (kept fs) = kept fs.
Proof.
  unfold kept. induction fs as [|f fs IH]; [reflexivity|].
  cbn [filter]. destruct (negb (rpm.Skip f)) eqn:E; [|exact IH].
  cbn [filter]. rewrite E, IH. reflexivity.
Qed.

(** X13. The fields that report [Skip] (a string or a binary field with
    an empty value) leave no trace in the block: the output is the one of
    the retained fields alone, the entry count at bytes 8 to 11 is their
    number, a number field is always retained and a retained string or
    binary field is never empty. *)
Theorem writeFields_skip (fs : list rpm.Field) (pad : bool) :
  len (kept fs) < 2 ^ 31 ->
  rpm.writeFields fs pad = rpm.writeFields (kept fs) pad /\
  word (rpm.writeFields fs pad) 8 = len (kept fs) /\
  (forall t k v, In (rpm.number t k v) fs -> In (rpm.number t k v) (kept fs)) /\
  (forall t v, In (rpm.varchar t v) (kept fs) -> v <> []) /\
  (forall t v, In (rpm.binarray t v) (kept fs) -> v <> []).
Proof.
  intros Hlt. split; [rewrite !writeFields_block, kept_twice; reflexivity|].
  split.
  { rewrite writeFields_block. unfold block.
    rewrite (count_from_small (kept fs) (c := 0)) by lia.
    rewrite Z.add_0_l.
    generalize (be_bytes_length 4 (uint32 (Z.lor (Z.shiftl rpm.MagicHDR 8) 1))).
    generalize (be_bytes 4 (uint32 (Z.lor (Z.shiftl rpm.MagicHDR 8) 1))).
    generalize (be_bytes_length 4 (uint32 0)). generalize (be_bytes 4 (uint32 0)).
    intros b Hb a Ha.
    generalize (padding (a ++ b ++ be_bytes 4 (len (kept fs)) ++
                         be_bytes 4 (int32 (len (flat_map rpm.Bytes (kept fs)))) ++
                         concat (index_from 0 (kept fs)) ++
                         flat_map rpm.Bytes (kept fs)) pad).
    intros pd. unfold word.
    rewrite <- !app_assoc, (app_assoc a b).
    rewrite skipn_len by (rewrite length_app, Ha, Hb; reflexivity).
    rewrite firstn_len by apply be_bytes_length.
    apply be_decode_small. pose proof (len_nonneg (kept fs)).
    change (2 ^ 32) with 4294967296. change (2 ^ 31) with 2147483648 in Hlt.
    lia. }
  unfold kept. repeat split.
  - intros t k v Hin. apply filter_In. split; [exact Hin | reflexivity].
  - intros t v Hin ->. apply filter_In in Hin. destruct Hin as [_ H].
    discriminate H.
  - intros t v Hin ->. apply filter_In in Hin. destruct Hin as [_ H].
    discriminate H.
Qed.

Lemma writeFields_skip_witness :
  let fs := rpm.controlToFields demo_control in
  rpm.writeFields fs false = rpm.writeFields (kept fs) false /\
  word (rpm.writeFields fs false) 8 = len (kept fs) /\
  (forall t k v, In (rpm.number t k v) fs -> In (rpm.number t k v) (kept fs)) /\
  (forall t v, In (rpm.varchar t v) (kept fs) -> v <> []) /\
  (forall t v, In (rpm.binarray t v) (kept fs) -> v <> []).
Proof.
  apply (@writeFields_skip (rpm.controlToFields demo_control) false).
  vm_compute. reflexivity.
Defined.

(** The name field of the lead: 66 bytes. *)
Definition lead_name (n : list byte) : list byte :=
  if 66 <? len n then firstn 66 n else n ++ repeat x00 (Z.to_nat (66 - len n)).

Lemma firstn_repeat {A : Type} (a : A) (k m : nat) :
  firstn k (repeat a m) = repeat a (Nat.min k m).
Proof.
  revert m. induction k as [|k IH]; intros [|m]; simpl; try reflexivity.
  f_equal. apply IH.
Qed.

Lemma lead_name_spec (n : list byte) :
  length (lead_name n) = 66%nat /\
  lead_name n = firstn 66 (n ++ repeat x00 66).
Proof.
  unfold lead_name, len. destruct (66 <? Z.of_nat (length n)) eqn:E.
  - apply Z.ltb_lt in E. split.
    + rewrite length_firstn. lia.
    + rewrite firstn_app_le by lia. reflexivity.
  - apply Z.ltb_ge in E. split.
    + rewrite length_app, repeat_length. lia.
    + rewrite firstn_app, firstn_all2 by lia. f_equal.
      rewrite firstn_repeat. f_equal. lia.
Qed.


Lemma writeLead_len (e : rpm.Lead) : len (rpm.writeLead e) = 96.
Proof.
  unfold rpm.writeLead. fold (lead_name (rpm.Name e)).
  destruct (lead_name_spec (rpm.Name e)) as [Hnl _].
  generalize dependent (lead_name (rpm.Name e)). intros nm Hnl.
  unfold len in *. rewrite !length_app, !be_bytes_length, Hnl.
  reflexivity.
Qed.

Section BuildExtras.

Variable md5_Sum : list byte -> rpm.digest 16.
Variable sha1_Sum : list byte -> rpm.digest 20.
Variable gzip_written : list byte -> list byte.
Variable cpio_Writer : Type.
Variable cpio_NewWriter : cpio_Writer.
Variable cpio_WriteHeader :
  cpio_Writer -> rpm.tape_Header -> cpio_Writer * option error.
Variable cpio_Write : cpio_Writer -> list byte -> cpio_Writer * Z * option error.
Variable cpio_Close : cpio_Writer -> cpio_Writer * option error.
Variable cpio_bytes : cpio_Writer -> list byte.
Variable os_Open : list byte -> rpm.os_File + error.

Local Abbreviation writeFile :=
  (rpm.writeFile md5_Sum cpio_WriteHeader cpio_Write os_Open).
Local Abbreviation archive_loop :=
  (rpm.archive_loop md5_Sum cpio_WriteHeader cpio_Write os_Open).
Local Abbreviation archive :=
  (rpm.archive md5_Sum cpio_NewWriter cpio_WriteHeader cpio_Write cpio_Close
     cpio_bytes os_Open).
Local Abbreviation writeArchive :=
  (rpm.writeArchive md5_Sum gzip_written cpio_NewWriter cpio_WriteHeader
     cpio_Write cpio_Close cpio_bytes os_Open).
Local Abbreviation Build :=
  (rpm.Build md5_Sum sha1_Sum gzip_written cpio_NewWriter cpio_WriteHeader
     cpio_Write cpio_Close cpio_bytes os_Open).
Local Abbreviation signature_fields := (rpm.signature_fields md5_Sum sha1_Sum).




Lemma archive_loop_app (fs1 fs2 : list rpm.File) :
  forall (ark : cpio_Writer) (w : rpm.builder),
    archive_loop ark w (fs1 ++ fs2) =
    match archive_loop ark w fs1 with
    | (ark1, w1, None) => archive_loop ark1 w1 fs2
    | failed => failed
    end.
Proof.
  induction fs1 as [|f fs1 IH]; intros ark w; [reflexivity|].
  cbn [app rpm.archive_loop].
  destruct (writeFile ark f) as [[bs [err|]] ark1]; [reflexivity|].
  apply IH.
Qed.

(** X16. A source file that cannot be opened aborts the build with the
    error of [os.Open]: when the files before it were archived, [Build]
    returns that error, the sink holds the lead only, the accumulator
    holds the entries of the files before it, and the files after it are
    not looked at. *)
Theorem Build_missing_file (w : rpm.builder) (c : rpm.Control)
        (fs1 fs2 : list rpm.File) (f : rpm.File) (err : error)
        (ark1 : cpio_Writer) (w1 : rpm.builder) :
  archive_loop cpio_NewWriter (with_lead w c) fs1 = (ark1, w1, None) ->
  os_Open (rpm.Src f) = inr err ->
  Build w c (fs1 ++ f :: fs2) = (Some err, w1) /\
  rpm.inner w1 = rpm.inner w ++ rpm.writeLead (lead_of c) /\
  rpm.sizes w1 = rpm.sizes w ++ map (fun _ => 16) fs1 /\
  rpm.filenames w1 = rpm.filenames w ++ map rpm.File_String fs1.
Proof.
  intros Hloop Hopen.
  assert (Hb : Build w c (fs1 ++ f :: fs2) = (Some err, w1)).
  { unfold rpm.Build. fold (lead_of c). fold (with_lead w c).
    unfold rpm.writeArchive, rpm.archive.
    rewrite archive_loop_app, Hloop. cbn [rpm.archive_loop].
    unfold rpm.writeFile. rewrite Hopen. reflexivity. }
  split; [exact Hb|].
  apply (archive_loop_success md5_Sum cpio_WriteHeader cpio_Write os_Open) in Hloop.
  destruct Hloop as (Hi & Hs & Hf & _).
  repeat split; assumption.
Qed.

(** X17. The output of a successful build is laid out at fixed offsets:
    after what the sink held, 96 bytes of lead, 104 bytes of signature
    (16 of prologue and counts, 3 entries of 16 bytes, a store of 40
    bytes, already a multiple of 8), then the metadata block and the
    payload. *)
Theorem Build_layout (w w' : rpm.builder) (c : rpm.Control)
        (files : list rpm.File) :
  Build w c files = (None, w') ->
  exists sig payload,
    rpm.inner w' =
      rpm.inner w ++ rpm.writeLead (lead_of c) ++ sig ++
      rpm.writeMetadata c ++ payload /\
    len (rpm.writeLead (lead_of c)) = 96 /\
    len sig = 104 /\
    sig = rpm.writeFields (signature_fields (rpm.writeMetadata c ++ payload)) true /\
    skipn (length (rpm.inner w) + 200) (rpm.inner w') =
      rpm.writeMetadata c ++ payload.
Proof.
  intros H.
  apply (Build_success md5_Sum sha1_Sum gzip_written cpio_NewWriter
           cpio_WriteHeader cpio_Write cpio_Close cpio_bytes os_Open) in H.
  destruct H as (payload & w1 & _ & Hi).
  pose proof (writeLead_len (lead_of c)) as Hl.
  assert (Hs : len (rpm.writeFields
                      (signature_fields (rpm.writeMetadata c ++ payload)) true)
               = 104).
  { rewrite signature_block, len_app4, signature_head_len, !digest_len.
    replace (len (be_bytes 4 (int32 (int64 (len (rpm.writeMetadata c ++ payload))))))
      with 4 by (unfold len; rewrite be_bytes_length; reflexivity).
    reflexivity. }
  eexists _, payload. split; [exact Hi|]. split; [exact Hl|].
  split; [exact Hs|]. split; [reflexivity|].
  rewrite Hi. revert Hl Hs.
  generalize (rpm.writeFields (signature_fields (rpm.writeMetadata c ++ payload)) true).
  generalize (rpm.writeLead (lead_of c)).
  generalize (rpm.writeMetadata c ++ payload).
  intros data lead sig Hl Hs.
  rewrite (app_assoc lead sig), (app_assoc (rpm.inner w)).
  apply skipn_len. unfold len in *. rewrite !length_app. lia.
Qed.

End BuildExtras.

(** Concrete runs of the properties above. *)
Definition missing_file : rpm.File :=
  {| rpm.Src := str "nothere.txt"; rpm.Archived := str "usr/share/nothere.txt" |}.

Definition demo_loop : list byte * rpm.builder * option error :=
  rpm.archive_loop demo_md5 demo_cpio_WriteHeader demo_cpio_Write demo_os_Open
    [] (with_lead empty_builder demo_control) demo_files.

Lemma Next_header_consumes_witness :
  let r := {| ar.r_inner := encoded demo_header ++ demo_payload;
              ar.r_hdr := None; ar.r_err := None |} in
  let r' := {| ar.r_inner := demo_payload;
               ar.r_hdr := Some (decode_of no_unicode_trim demo_header); ar.r_err := None |} in
  @None error = None /\ ar.r_err r = None /\ ar.r_err r' = None /\
  ar.r_hdr r' = Some (decode_of no_unicode_trim demo_header) /\
  len (ar.r_inner r) = 60 + len (ar.r_inner r') /\
  firstn 2 (skipn 58 (ar.r_inner r)) = ar.linefeed /\
  skipn 60 (ar.r_inner r) = ar.r_inner r'.
Proof.
  apply (@Next_header_consumes no_unicode_trim
           {| ar.r_inner := encoded demo_header ++ demo_payload;
              ar.r_hdr := None; ar.r_err := None |}
           {| ar.r_inner := demo_payload;
              ar.r_hdr := Some (decode_of no_unicode_trim demo_header); ar.r_err := None |}
           (decode_of no_unicode_trim demo_header) None).
  vm_compute. reflexivity.
Defined.


Lemma Build_missing_file_witness :
  let w1 := snd (fst demo_loop) in
  rpm.Build demo_md5 demo_sha1 demo_gzip_written [] demo_cpio_WriteHeader
    demo_cpio_Write demo_cpio_Close (fun w => w) demo_os_Open
    empty_builder demo_control (demo_files ++ missing_file :: demo_files) =
    (Some ErrNotExist, w1) /\
  rpm.inner w1 = rpm.inner empty_builder ++ rpm.writeLead (lead_of demo_control) /\
  rpm.sizes w1 = rpm.sizes empty_builder ++ map (fun _ => 16) demo_files /\
  rpm.filenames w1 =
    rpm.filenames empty_builder ++ map rpm.File_String demo_files.
Proof.
  apply (@Build_missing_file demo_md5 demo_sha1 demo_gzip_written _ []
           demo_cpio_WriteHeader demo_cpio_Write demo_cpio_Close (fun w => w)
           demo_os_Open empty_builder demo_control demo_files demo_files
           missing_file ErrNotExist (fst (fst demo_loop)) (snd (fst demo_loop)));
    vm_compute; reflexivity.
Defined.

Lemma Build_layout_witness :
  exists sig payload,
    rpm.inner (snd demo_Build) =
      rpm.inner empty_builder ++ rpm.writeLead (lead_of demo_control) ++ sig ++
      rpm.writeMetadata demo_control ++ payload /\
    len (rpm.writeLead (lead_of demo_control)) = 96 /\
    len sig = 104 /\
    sig = rpm.writeFields
            (rpm.signature_fields demo_md5 demo_sha1
               (rpm.writeMetadata demo_control ++ payload)) true /\
    skipn (length (rpm.inner empty_builder) + 200) (rpm.inner (snd demo_Build)) =
      rpm.writeMetadata demo_control ++ payload.
Proof.
  apply (@Build_layout demo_md5 demo_sha1 demo_gzip_written _ []
           demo_cpio_WriteHeader demo_cpio_Write demo_cpio_Close (fun w => w)
           demo_os_Open empty_builder (snd demo_Build) demo_control demo_files).
  vm_compute. reflexivity.
Defined.

Section TailFacts.

Variable f : list byte -> list byte.
Variable fsys : list byte -> option (list byte).



End TailFacts.



(** ** The metadata block *)

(** The tags and values that [controlToFields] goes through, in order. *)
Definition control_values (c : rpm.Control) : list (Z * list byte) :=
  [ (rpm.TagPackage, rpm.Package c); (rpm.TagVersion, rpm.Version c);
    (rpm.TagSummary, rpm.Summary c); (rpm.TagDesc, rpm.Desc c);
    (rpm.TagVendor, rpm.Vendor c); (rpm.TagLicense, rpm.License c);
    (rpm.TagURL, rpm.Home c) ].

Definition given (l : list (Z * list byte)) : list (Z * list byte) :=
  filter (fun p => negb (len (snd p) =? 0)) l.

Definition as_varchar (p : Z * list byte) : rpm.Field :=
  rpm.varchar (fst p) (snd p).

Definition terminated (p : Z * list byte) : list byte := snd p ++ [x00].

Lemma kept_varchars (l : list (Z * list byte)) :
  kept (map as_varchar l) = map as_varchar (given l).
Proof.
  unfold kept, given. induction l as [|[t s] l IH]; [reflexivity|].
  cbn [map filter as_varchar rpm.Skip fst snd].
  destruct (negb (len s =? 0)); cbn [map]; rewrite IH; reflexivity.
Qed.

Lemma varchars_store (l : list (Z * list byte)) :
  flat_map rpm.Bytes (map as_varchar l) = flat_map terminated l.
Proof.
  induction l as [|[t s] l IH]; [reflexivity|].
  cbn [map flat_map as_varchar rpm.Bytes terminated fst snd].
  rewrite IH. reflexivity.
Qed.

Lemma block_count (ks : list rpm.Field) :
  len ks < 2 ^ 31 -> word (block ks) 8 = len ks.
Proof.
  intros Hlt. unfold block.
  rewrite (count_from_small ks (c := 0)) by lia.
  rewrite Z.add_0_l.
  generalize (be_bytes_length 4 (uint32 (Z.lor (Z.shiftl rpm.MagicHDR 8) 1))).
  generalize (be_bytes 4 (uint32 (Z.lor (Z.shiftl rpm.MagicHDR 8) 1))).
  generalize (be_bytes_length 4 (uint32 0)). generalize (be_bytes 4 (uint32 0)).
  intros b Hb a Ha. unfold word.
  rewrite (app_assoc a b).
  rewrite skipn_len by (rewrite length_app, Ha, Hb; reflexivity).
  rewrite firstn_len by apply be_bytes_length.
  apply be_decode_small. pose proof (len_nonneg ks).
  change (2 ^ 32) with 4294967296. change (2 ^ 31) with 2147483648 in Hlt.
  lia.
Qed.

Lemma block_store (ks : list rpm.Field) :
  skipn (16 + 16 * length ks) (block ks) = flat_map rpm.Bytes ks.
Proof.
  unfold block.
  generalize (be_bytes_length 4 (uint32 (Z.lor (Z.shiftl rpm.MagicHDR 8) 1))).
  generalize (be_bytes 4 (uint32 (Z.lor (Z.shiftl rpm.MagicHDR 8) 1))).
  generalize (be_bytes_length 4 (uint32 0)). generalize (be_bytes 4 (uint32 0)).
  generalize (be_bytes_length 4 (count_from 0 ks)).
  generalize (be_bytes 4 (count_from 0 ks)).
  generalize (be_bytes_length 4 (int32 (len (flat_map rpm.Bytes ks)))).
  generalize (be_bytes 4 (int32 (len (flat_map rpm.Bytes ks)))).
  intros d Hd c Hc b Hb a Ha.
  pose proof (index_from_len ks 0) as Hi. unfold len in Hi.
  generalize dependent (concat (index_from 0 ks)). intros ix Hi.
  rewrite (app_assoc c d), (app_assoc b), (app_assoc a), (app_assoc _ ix).
  apply skipn_len. rewrite !length_app, Ha, Hb, Hc, Hd. lia.
Qed.

(** X19. The metadata block holds the fields of the control record that
    are not empty, and only those: it is the block of these fields, in
    the order package, version, summary, description, vendor, license,
    URL; its entry count is their number, its store is their values, each
    followed by one NUL byte, and nothing pads it. A control record with
    no value at all gives the 16 bytes of prologue and counts. *)
Theorem writeMetadata_values (c : rpm.Control) :
  let gs := given (control_values c) in
  rpm.writeMetadata c = rpm.writeFields (map as_varchar gs) false /\
  word (rpm.writeMetadata c) 8 = len gs /\
  len (rpm.writeMetadata c) = 16 + 16 * len gs + len (flat_map terminated gs) /\
  skipn (16 + 16 * length gs) (rpm.writeMetadata c) = flat_map terminated gs /\
  (gs = [] -> len (rpm.writeMetadata c) = 16).
Proof.
  intros gs. unfold rpm.writeMetadata.
  change (rpm.controlToFields c) with (map as_varchar (control_values c)).
  assert (Hk : kept (map as_varchar (control_values c)) = map as_varchar gs)
    by apply kept_varchars.
  assert (Hk2 : kept (map as_varchar gs) = map as_varchar gs).
  { rewrite <- Hk. apply kept_twice. }
  assert (Hn : (length gs <= 7)%nat).
  { unfold gs, given.
    apply (Nat.le_trans _ _ _ (filter_length_le _ (control_values c))).
    reflexivity. }
  assert (Hb : rpm.writeFields (map as_varchar (control_values c)) false =
               block (map as_varchar gs)).
  { rewrite writeFields_block, Hk. unfold padding.
    rewrite andb_false_r. apply app_nil_r. }
  assert (Hlen : len (block (map as_varchar gs)) =
                 16 + 16 * len gs + len (flat_map terminated gs)).
  { rewrite block_len, <- store_len_flat, varchars_store.
    unfold len. rewrite length_map. reflexivity. }
  split.
  { rewrite Hb, writeFields_block, Hk2. unfold padding.
    rewrite andb_false_r. symmetry. apply app_nil_r. }
  rewrite Hb. split.
  { rewrite block_count; unfold len; rewrite length_map; [reflexivity|].
    change (2 ^ 31) with 2147483648. lia. }
  split; [exact Hlen|]. split.
  { rewrite <- varchars_store, <- block_store, length_map. reflexivity. }
  intros He. rewrite Hlen, He. reflexivity.
Qed.
